(** * solid-allotment: pane views, preferred-size strategies and sash size

    A shallow embedding of the TypeScript sources of the allotment component
    ([allotment.tsx], [pane-view.ts] and [helpers/platform.ts]) together with
    the JavaScript built-ins they call, a model of the split-view engine as
    the specification describes it, the properties of the specification that
    are settled against them, and further properties of the component: the
    platform flags, the reset of a sash, the resize observer, the mount, and
    the effect that reconciles the views with the children.

    JavaScript numbers are IEEE 754 binary64 values: they are modelled by
    Rocq's primitive [float]s, whose operations are the processor's.
    JavaScript strings are sequences of UTF-16 code units: they are modelled
    by lists of code units. *)

From Stdlib Require Import ZArith NArith List Bool Lia String Ascii.
From Stdlib Require Import Floats.PrimFloat Floats.SpecFloat Floats.FloatOps.
From Stdlib Require Import Floats.FloatAxioms Permutation.
Import ListNotations.

(* ================================================================== *)
(** * JavaScript built-ins used by the sources *)
(* ================================================================== *)

Module JS.

(** ** Numbers *)

Definition number := float.
Bind Scope float_scope with number.

Definition NaN : number := nan.
Definition POSITIVE_INFINITY : number := infinity.

(** [x <= y] and [x >= y] of JavaScript: false as soon as an operand is NaN. *)
Definition le (x y : number) : bool := PrimFloat.leb x y.
Definition ge (x y : number) : bool := PrimFloat.leb y x.

(** [x === x], false exactly for NaN. *)
Definition self_equal (x : number) : bool := PrimFloat.eqb x x.

(** ** Strings *)

Definition code_unit := N.
Definition jsstring := list code_unit.

(** A string literal of the source (ASCII), character by character. *)
Definition lit (s : string) : jsstring :=
  map N_of_ascii (list_ascii_of_string s).

(** [s === t] on strings: the same code units in the same order. *)
Fixpoint string_equal (s t : jsstring) : bool :=
  match s, t with
  | [], [] => true
  | a :: s', b :: t' => (a =? b)%N && string_equal s' t'
  | _, _ => false
  end.

(** WhiteSpace and LineTerminator code points of ECMAScript, the characters
    removed by [String.prototype.trim] and skipped by [Number] and
    [parseFloat]. *)
Definition isWhiteSpace (c : code_unit) : bool :=
  ((9 <=? c) && (c <=? 13)            (* TAB, LF, VT, FF, CR *)
   || (c =? 32)                       (* SP *)
   || (c =? 160)                      (* NBSP *)
   || (c =? 5760)                     (* U+1680 *)
   || ((8192 <=? c) && (c <=? 8202))  (* U+2000 .. U+200A *)
   || (c =? 8232) || (c =? 8233)      (* LS, PS *)
   || (c =? 8239) || (c =? 8287)      (* U+202F, U+205F *)
   || (c =? 12288)                    (* U+3000 *)
   || (c =? 65279))%N.                (* U+FEFF *)

Fixpoint trimStart (s : jsstring) : jsstring :=
  match s with
  | c :: s' => if isWhiteSpace c then trimStart s' else s
  | [] => []
  end.

Definition trimEnd (s : jsstring) : jsstring :=
  rev (trimStart (rev s)).

(** [s.trim()] *)
Definition trim (s : jsstring) : jsstring := trimEnd (trimStart s).

(** [s.slice(0, -k)] for a positive literal [k]: the end index is
    [max(length - k, 0)]. *)
Definition slice_0_neg (s : jsstring) (k : nat) : jsstring :=
  firstn (List.length s - k) s.

(** ** Numeric literals in strings *)

Definition isDigit (c : code_unit) : bool := ((48 <=? c) && (c <=? 57))%N.

Definition digitValue (c : code_unit) : Z := Z.of_N (c - 48).

(** The longest run of decimal digits at the head of [s], and what follows. *)
Fixpoint spanDigits (s : jsstring) : jsstring * jsstring :=
  match s with
  | c :: s' =>
      if isDigit c
      then let (ds, rest) := spanDigits s' in (c :: ds, rest)
      else ([], s)
  | [] => ([], [])
  end.

(** The mathematical value of a run of decimal digits. *)
Definition digitsMV (ds : jsstring) : Z :=
  fold_left (fun acc c => 10 * acc + digitValue c)%Z ds 0%Z.

(** The Number value of [(-1)^neg * m * 10^e], rounded to nearest, ties to
    even (RoundMVResult); the sign of a zero is kept. *)
Definition decimalToNumber (neg : bool) (m : Z) (e : Z) : number :=
  match m with
  | Zpos p =>
      SF2Prim
        (if (0 <=? e)%Z
         then binary_normalize prec emax
                (if neg then - (m * 10 ^ e) else m * 10 ^ e)%Z 0%Z false
         else SFdiv prec emax
                (S754_finite neg p 0)
                (S754_finite false (Z.to_pos (10 ^ (- e))) 0))
  | _ => if neg then neg_zero else zero
  end.

(** What a scan of a StrDecimalLiteral finds. *)
Inductive decimal :=
| DInfinity (neg : bool)
| DFinite (neg : bool) (mantissa : Z) (exponent : Z).

Definition decimalValue (d : decimal) : number :=
  match d with
  | DInfinity neg => if neg then neg_infinity else infinity
  | DFinite neg m e => decimalToNumber neg m e
  end.

(** [prefix p s]: [Some rest] when [s = p ++ rest]. *)
Fixpoint stripPrefix (p s : jsstring) : option jsstring :=
  match p, s with
  | [], _ => Some s
  | a :: p', b :: s' => if (a =? b)%N then stripPrefix p' s' else None
  | _ :: _, [] => None
  end.

(** ExponentPart, when one is present at the head of [s]:
    [e] or [E], an optional sign, at least one digit. *)
Definition scanExponent (s : jsstring) : option (Z * jsstring) :=
  match s with
  | c :: s1 =>
      if ((c =? 101) || (c =? 69))%N then       (* e, E *)
        let '(neg, s2) :=
          match s1 with
          | 43%N :: t => (false, t)             (* + *)
          | 45%N :: t => (true, t)              (* - *)
          | _ => (false, s1)
          end in
        match spanDigits s2 with
        | ([], _) => None
        | (ds, rest) =>
            Some ((if neg then - digitsMV ds else digitsMV ds)%Z, rest)
        end
      else None
  | [] => None
  end.

(** StrUnsignedDecimalLiteral: the longest prefix of [s] that is one, with
    the remainder of the string. *)
Definition scanUnsignedDecimal (neg : bool) (s : jsstring)
  : option (decimal * jsstring) :=
  match stripPrefix (lit "Infinity") s with
  | Some rest => Some (DInfinity neg, rest)
  | None =>
      let (int, s1) := spanDigits s in
      let (frac, s2) :=
        match s1 with
        | 46%N :: t => spanDigits t             (* . *)
        | _ => ([], s1)
        end in
      match int, frac with
      | [], [] => None
      | _, _ =>
          let m := digitsMV (int ++ frac) in
          let k := Z.of_nat (List.length frac) in
          match scanExponent s2 with
          | Some (e, rest) => Some (DFinite neg m (e - k), rest)
          | None => Some (DFinite neg m (- k), s2)
          end
      end
  end.

(** StrDecimalLiteral: an optional sign, then an unsigned literal. *)
Definition scanDecimal (s : jsstring) : option (decimal * jsstring) :=
  match s with
  | 43%N :: t => scanUnsignedDecimal false t
  | 45%N :: t => scanUnsignedDecimal true t
  | _ => scanUnsignedDecimal false s
  end.

(** [Number.parseFloat(s)]: leading white space is skipped, the longest
    prefix that is a StrDecimalLiteral is converted; NaN when there is
    none. *)
Definition parseFloat (s : jsstring) : number :=
  match scanDecimal (trimStart s) with
  | Some (d, _) => decimalValue d
  | None => NaN
  end.

(** Digits of NonDecimalIntegerLiteral in the given radix. *)
Definition radixDigit (radix : Z) (c : code_unit) : option Z :=
  let v :=
    if isDigit c then Some (digitValue c)
    else if ((97 <=? c) && (c <=? 102))%N then Some (Z.of_N (c - 87))
    else if ((65 <=? c) && (c <=? 70))%N then Some (Z.of_N (c - 55))
    else None in
  match v with
  | Some d => if (d <? radix)%Z then Some d else None
  | None => None
  end.

Fixpoint radixMV (radix : Z) (acc : Z) (s : jsstring) : option Z :=
  match s with
  | [] => Some acc
  | c :: s' =>
      match radixDigit radix c with
      | Some d => radixMV radix (radix * acc + d)%Z s'
      | None => None
      end
  end.

(** NonDecimalIntegerLiteral: [0x], [0o], [0b] (either case) followed by at
    least one digit of the radix, and nothing else. *)
Definition scanNonDecimal (s : jsstring) : option Z :=
  match s with
  | 48%N :: c :: (_ :: _) as ds =>
      if ((c =? 120) || (c =? 88))%N then radixMV 16 0 ds
      else if ((c =? 111) || (c =? 79))%N then radixMV 8 0 ds
      else if ((c =? 98) || (c =? 66))%N then radixMV 2 0 ds
      else None
  | _ => None
  end.

(** [Number(s)] on a string (StringToNumber): white space on both sides is
    skipped; the empty string is [+0]; the whole of the rest must be a
    StrNumericLiteral, otherwise the result is NaN. *)
Definition Number (s : jsstring) : number :=
  match trim s with
  | [] => zero
  | t =>
      match scanNonDecimal t with
      | Some m => decimalToNumber false m 0
      | None =>
          match scanDecimal t with
          | Some (d, []) => decimalValue d
          | _ => NaN
          end
      end
  end.

(** ** Values and [typeof] *)

Inductive value :=
| VUndefined
| VNull
| VBoolean (b : bool)
| VNumber (n : number)
| VString (s : jsstring).

Inductive type_tag := TUndefined | TObject | TBoolean | TNumber | TString.

Definition typeof (v : value) : type_tag :=
  match v with
  | VUndefined => TUndefined
  | VNull => TObject
  | VBoolean _ => TBoolean
  | VNumber _ => TNumber
  | VString _ => TString
  end.

(** ** Truthiness, strict equality and nullish values *)

(** ToBoolean: [undefined], [null], [false], [+0], [-0], [NaN] and the empty
    string are falsy. *)
Definition ToBoolean (v : value) : bool :=
  match v with
  | VUndefined | VNull => false
  | VBoolean b => b
  | VNumber n => negb (PrimFloat.eqb n 0) && PrimFloat.eqb n n
  | VString [] => false
  | VString (_ :: _) => true
  end.

(** [a === b] *)
Definition strict_equal (a b : value) : bool :=
  match a, b with
  | VUndefined, VUndefined => true
  | VNull, VNull => true
  | VBoolean x, VBoolean y => Bool.eqb x y
  | VNumber x, VNumber y => PrimFloat.eqb x y
  | VString x, VString y => string_equal x y
  | _, _ => false
  end.

(** [a ?? b] *)
Definition coalesce (a b : value) : value :=
  match a with
  | VUndefined | VNull => b
  | _ => a
  end.

(** A [number | undefined] as a value. *)
Definition of_option (o : option number) : value :=
  match o with Some n => VNumber n | None => VUndefined end.

(** ** [Math.round] *)

(** The integral Number closest to [x], the one closer to +Infinity on a tie:
    [floor(x + 1/2)] computed exactly; NaN, the infinities and the zeros are
    returned as they are, and a zero result keeps the sign of [x]. *)
Definition Math_round (x : number) : number :=
  match Prim2SF x with
  | S754_finite s m e =>
      if (0 <=? e)%Z then x
      else
        let k := (- e)%Z in
        let signed := (if s then Z.neg m else Z.pos m) in
        let n := ((2 * signed + 2 ^ k) / 2 ^ (k + 1))%Z in
        match n with
        | Z0 => if s then neg_zero else zero
        | _ => SF2Prim (binary_normalize prec emax n 0%Z false)
        end
  | _ => x
  end.

(** ** [String.prototype.indexOf] *)

(** The first position at which [needle] occurs in [s], or -1. *)
Fixpoint indexOf (s needle : jsstring) : Z :=
  match stripPrefix needle s with
  | Some _ => 0%Z
  | None =>
      match s with
      | [] => (-1)%Z
      | _ :: s' =>
          let r := indexOf s' needle in
          if (r <? 0)%Z then (-1)%Z else (r + 1)%Z
      end
  end.

(** ** Arrays *)

(** [l[i]], [undefined] outside the array. *)
Definition item {A : Type} (l : list A) (i : Z) : option A :=
  if (i <? 0)%Z then None else nth_error l (Z.to_nat i).

(** [l.splice(start, deleteCount, ...items)], the array afterwards: a
    negative [start] counts from the end, and both are clamped to the
    array. *)
Definition splice {A : Type} (start deleteCount : Z) (items : list A)
    (l : list A) : list A :=
  let len := Z.of_nat (List.length l) in
  let actualStart :=
    if (start <? 0)%Z then Z.max (len + start) 0 else Z.min start len in
  let actualDeleteCount := Z.min (Z.max deleteCount 0) (len - actualStart) in
  firstn (Z.to_nat actualStart) l ++ items
  ++ skipn (Z.to_nat (actualStart + actualDeleteCount)) l.

(** [l.findIndex(P)]: the first index whose element satisfies [P], or -1. *)
Fixpoint findIndex {A : Type} (P : A -> bool) (l : list A) : Z :=
  match l with
  | [] => (-1)%Z
  | x :: l' =>
      if P x then 0%Z
      else
        let r := findIndex P l' in
        if (r <? 0)%Z then (-1)%Z else (r + 1)%Z
  end.

End JS.

Import JS.

(* ================================================================== *)
(** * Collaborators of the pane view *)
(* ================================================================== *)

(** Third-party [lodash.clamp], as the package defines it:
    [clamp(number, lower, upper)] replaces a NaN bound by 0 and hands over to
    [baseClamp], which leaves a NaN [number] alone, caps [number] by [upper]
    and then raises it to [lower]. *)
Definition baseClamp (number lower upper : JS.number) : JS.number :=
  if self_equal number then
    let number := if le number upper then number else upper in
    if ge number lower then number else lower
  else number.

Definition clamp (number lower upper : JS.number) : JS.number :=
  let upper := if self_equal upper then upper else 0%float in
  let lower := if self_equal lower then lower else 0%float in
  baseClamp number lower upper.

(** Modelled from the spec: the [endsWith] helper of [helpers/string], which
    is not among the sources; the construction rule speaks of "a string ending
    in" the suffix. *)
Definition endsWith (haystack needle : jsstring) : bool :=
  let diff := (List.length haystack - List.length needle)%nat in
  (List.length needle <=? List.length haystack)%nat
  && string_equal (skipn diff haystack) needle.

(** Modelled from the spec: the Layout Context ([layout-service], not among
    the sources): "[getSize() -> number], [setSize(n: number) -> void].
    Single mutable cell". *)
Record LayoutService := { _size : number }.

Definition getSize (this : LayoutService) : number := _size this.

Definition setSize (size : number) (this : LayoutService) : LayoutService :=
  {| _size := size |}.

(** Layout services are objects shared by reference between the component
    and its pane views: a reference names a cell of the heap. *)
Definition LayoutServiceRef := positive.

Definition Heap := LayoutServiceRef -> LayoutService.

Definition heap_update (r : LayoutServiceRef) (f : LayoutService -> LayoutService)
    (h : Heap) : Heap :=
  fun r' => if Pos.eqb r' r then f (h r') else h r'.

(** Modelled from the spec: [LayoutPriority] of [split-view], not among the
    sources; "priority: enum {Low, Normal, High}". *)
Inductive LayoutPriority := Low | Normal | High.

(** The pane's DOM element is an opaque handle. *)
Definition HTMLElement := positive.

(* ================================================================== *)
(** * pane-view: layout strategies *)
(* ================================================================== *)

(** The classes implementing [interface Layout], one constructor each:
    [PixelLayout] keeps [size], [ProportionLayout] keeps [proportion] and a
    reference to the layout service, [NullLayout] keeps nothing. *)
Inductive Layout :=
| PixelLayout (size : number)
| ProportionLayout (proportion : number) (layoutService : LayoutServiceRef)
| NullLayout.

(** [getPreferredSize(): number | undefined], dispatched on the class; the
    proportional strategy reads the layout service at the time of the call. *)
Definition getPreferredSize (h : Heap) (this : Layout) : option number :=
  match this with
  | PixelLayout size => Some size
  | ProportionLayout proportion layoutService =>
      Some (proportion * getSize (h layoutService))%float
  | NullLayout => None
  end.

(* ================================================================== *)
(** * pane-view: [PaneView] *)
(* ================================================================== *)

Record PaneViewOptions := {
  opt_element : HTMLElement;
  opt_minimumSize : value;
  opt_maximumSize : value;
  opt_priority : option LayoutPriority;
  opt_preferredSize : value;
  opt_snap : value
}.

Record PaneView := {
  _minimumSize : number;
  _maximumSize : number;
  element : HTMLElement;
  _priority : option LayoutPriority;
  _snap : bool;
  layoutService : LayoutServiceRef;
  layoutStrategy : Layout
}.

(** [get preferredSize()] *)
Definition preferredSize (h : Heap) (this : PaneView) : option number :=
  getPreferredSize h (layoutStrategy this).

(** [set preferredSize(preferredSize)] *)
Definition set_preferredSize (preferredSize : value) (this : PaneView) : PaneView :=
  let strategy :=
    match preferredSize with
    | VNumber preferredSize => PixelLayout preferredSize
    | VString preferredSize =>
        let trimmedPreferredSize := trim preferredSize in
        if endsWith trimmedPreferredSize (lit "%") then
          let proportion := (Number (slice_0_neg trimmedPreferredSize 1) / 100)%float in
          ProportionLayout proportion (layoutService this)
        else if endsWith trimmedPreferredSize (lit "px") then
          let pixels := (Number (slice_0_neg trimmedPreferredSize 2) / 100)%float in
          PixelLayout pixels
        else
          match typeof (VNumber (parseFloat trimmedPreferredSize)) with
          | TNumber =>
              let number := parseFloat trimmedPreferredSize in
              PixelLayout number
          | _ => NullLayout
          end
    | _ => NullLayout
    end in
  {| _minimumSize := _minimumSize this; _maximumSize := _maximumSize this;
     element := element this; _priority := _priority this; _snap := _snap this;
     layoutService := layoutService this; layoutStrategy := strategy |}.

(** [get priority()] / [set priority(priority)] *)
Definition priority (this : PaneView) : option LayoutPriority := _priority this.

Definition set_priority (priority : option LayoutPriority) (this : PaneView) : PaneView :=
  {| _minimumSize := _minimumSize this; _maximumSize := _maximumSize this;
     element := element this;
     _priority := Some (match priority with Some p => p | None => Normal end);
     _snap := _snap this;
     layoutService := layoutService this; layoutStrategy := layoutStrategy this |}.

(** [get snap()] / [set snap(snap)] *)
Definition snap (this : PaneView) : bool := _snap this.

Definition set_snap (snap : value) (this : PaneView) : PaneView :=
  {| _minimumSize := _minimumSize this; _maximumSize := _maximumSize this;
     element := element this; _priority := _priority this;
     _snap := match snap with VBoolean b => b | _ => false end;
     layoutService := layoutService this; layoutStrategy := layoutStrategy this |}.

(** [get minimumSize()] / [set minimumSize(minimumSize)] *)
Definition minimumSize (this : PaneView) : number := _minimumSize this.

Definition set_minimumSize (minimumSize : value) (this : PaneView) : PaneView :=
  {| _minimumSize := match minimumSize with VNumber n => n | _ => 30%float end;
     _maximumSize := _maximumSize this;
     element := element this; _priority := _priority this; _snap := _snap this;
     layoutService := layoutService this; layoutStrategy := layoutStrategy this |}.

(** [get maximumSize()] / [set maximumSize(maximumSize)] *)
Definition maximumSize (this : PaneView) : number := _maximumSize this.

Definition set_maximumSize (maximumSize : value) (this : PaneView) : PaneView :=
  {| _minimumSize := _minimumSize this;
     _maximumSize := match maximumSize with VNumber n => n | _ => POSITIVE_INFINITY end;
     element := element this; _priority := _priority this; _snap := _snap this;
     layoutService := layoutService this; layoutStrategy := layoutStrategy this |}.

(** The strategy chosen by the body of the constructor, which does not go
    through the setter but repeats its cases. *)
Definition constructor_layoutStrategy (layoutService : LayoutServiceRef)
    (options : PaneViewOptions) : Layout :=
  match opt_preferredSize options with
  | VNumber n => PixelLayout n
  | VString s =>
      let preferredSize := trim s in
      if endsWith preferredSize (lit "%") then
        let proportion := (Number (slice_0_neg preferredSize 1) / 100)%float in
        ProportionLayout proportion layoutService
      else if endsWith preferredSize (lit "px") then
        let pixels := (Number (slice_0_neg preferredSize 2) / 100)%float in
        PixelLayout pixels
      else
        match typeof (VNumber (parseFloat preferredSize)) with
        | TNumber =>
            let number := parseFloat preferredSize in
            PixelLayout number
        | _ => NullLayout
        end
  | _ => NullLayout
  end.

(** [new PaneView(layoutService, options)]: the field initialisers, then the
    body of the constructor.  [layoutStrategy] has no initialiser and is
    first assigned by the body; no setter reads it, so the record is built
    with the value the body gives it. *)
Definition new_PaneView (layoutService : LayoutServiceRef)
    (options : PaneViewOptions) : PaneView :=
  let this :=
    {| _minimumSize := 0%float; _maximumSize := POSITIVE_INFINITY;
       element := opt_element options; _priority := None; _snap := false;
       layoutService := layoutService;
       layoutStrategy := constructor_layoutStrategy layoutService options |} in
  let this := set_minimumSize (opt_minimumSize options) this in
  let this := set_maximumSize (opt_maximumSize options) this in
  let this := set_priority (opt_priority options) this in
  let this := set_snap (opt_snap options) this in
  this.

(** [layout(_size)] has an empty body. *)
Definition layout (_size : number) (this : PaneView) : PaneView := this.

(** Options with every optional property left out, and the same options
    with a [preferredSize]. *)
Definition bare_options (element : HTMLElement) : PaneViewOptions :=
  {| opt_element := element;
     opt_minimumSize := VUndefined; opt_maximumSize := VUndefined;
     opt_priority := None; opt_preferredSize := VUndefined;
     opt_snap := VUndefined |}.

Definition with_preferredSize (v : value) (o : PaneViewOptions) : PaneViewOptions :=
  {| opt_element := opt_element o;
     opt_minimumSize := opt_minimumSize o; opt_maximumSize := opt_maximumSize o;
     opt_priority := opt_priority o; opt_preferredSize := v;
     opt_snap := opt_snap o |}.

(** Assignments a host can make to a pane view after its construction. *)
Inductive assignment :=
| AssignPreferredSize (v : value)
| AssignPriority (p : option LayoutPriority)
| AssignSnap (v : value)
| AssignMinimumSize (v : value)
| AssignMaximumSize (v : value).

Definition assign (a : assignment) (this : PaneView) : PaneView :=
  match a with
  | AssignPreferredSize v => set_preferredSize v this
  | AssignPriority p => set_priority p this
  | AssignSnap v => set_snap v this
  | AssignMinimumSize v => set_minimumSize v this
  | AssignMaximumSize v => set_maximumSize v this
  end.

(** The assignments of [calls], first to last. *)
Definition assign_all (calls : list assignment) (this : PaneView) : PaneView :=
  fold_left (fun pv a => assign a pv) calls this.

(** What a bound ends up as: the number assigned, or the setter's default. *)
Definition number_or (default : number) (v : value) : number :=
  match v with VNumber n => n | _ => default end.

(** The value last given for [minimumSize] (for [maximumSize]): by the
    options of the constructor, or by a later assignment. *)
Definition last_minimumSize (options : PaneViewOptions)
    (calls : list assignment) : value :=
  fold_left (fun v a => match a with AssignMinimumSize v' => v' | _ => v end)
            calls (opt_minimumSize options).

Definition last_maximumSize (options : PaneViewOptions)
    (calls : list assignment) : value :=
  fold_left (fun v a => match a with AssignMaximumSize v' => v' | _ => v end)
            calls (opt_maximumSize options).

(** The data model's constraint on the bounds of a pane. *)
Definition bounds_ordered (this : PaneView) : Prop :=
  le 0%float (minimumSize this) = true /\
  le (minimumSize this) (maximumSize this) = true.

(* ================================================================== *)
(** * allotment: [setSashSize] *)
(* ================================================================== *)

(** The text [n + "px"] written to a custom property, kept by its number. *)
Inductive css_value := Px (n : number).

(** Process-wide state touched by [setSashSize]: the inline style of
    [document.documentElement], and the sash module's global size. *)
Record Globals := {
  style : string -> option css_value;
  globalSashSize : number
}.

(** [document.documentElement.style.setProperty(name, value)] *)
Definition setProperty (name : string) (v : css_value) (g : Globals) : Globals :=
  {| style := fun k => if String.eqb k name then Some v else style g k;
     globalSashSize := globalSashSize g |}.

(** Modelled from the spec: [setGlobalSashSize] of [sash], not among the
    sources; "a single setter affecting all engine instances process-wide". *)
Definition setGlobalSashSize (size : number) (g : Globals) : Globals :=
  {| style := style g; globalSashSize := size |}.

Definition setSashSize (sashSize : number) (g : Globals) : Globals :=
  let size := clamp sashSize 4%float 20%float in
  let hoverSize := clamp sashSize 1%float 8%float in
  let g := setProperty "--sash-size" (Px size) g in
  let g := setProperty "--sash-hover-size" (Px hoverSize) g in
  setGlobalSashSize size g.

(* ================================================================== *)
(** * split-view: the size-distribution engine *)
(* ================================================================== *)

(** The engine ([split-view]) is not among the sources.  Its data model
    (section 3 of the specification) and the operations of section 4.3 are
    written down here as the specification words them.  Sizes are whole
    units.  Where the words leave a choice open, the comment on the
    definition names the one taken.  The snap threshold rule and the
    visibility operations are not part of the model. *)
Module SplitView.

Local Open Scope Z_scope.

Inductive Orientation := Horizontal | Vertical.

Inductive Sizing := Distribute | Split (neighborIndex : nat).

Inductive Error := InvalidIndex | SizeMismatch | SizeSumMismatch.

(** Modelled from the spec: the Pane of the data model, "[minimumSize],
    [maximumSize] (may be +Infinity), [priority], [snap]", with its current
    size; [None] is the maximum +Infinity. *)
Record Pane := {
  minimumSize : Z;
  maximumSize : option Z;
  priority : LayoutPriority;
  snap : bool;
  currentSize : Z
}.

(** Modelled from the spec: the Split-View Engine state, "[orientation],
    [panes]: ordered sequence of Pane, [containerSize],
    [proportionalLayout]". *)
Record Engine := {
  orientation : Orientation;
  panes : list Pane;
  containerSize : Z;
  proportionalLayout : bool
}.

Definition resized (p : Pane) (size : Z) : Pane :=
  {| minimumSize := minimumSize p; maximumSize := maximumSize p;
     priority := priority p; snap := snap p; currentSize := size |}.

Definition with_panes (ps : list Pane) (e : Engine) : Engine :=
  {| orientation := orientation e; panes := ps;
     containerSize := containerSize e;
     proportionalLayout := proportionalLayout e |}.

(** [size] "clamped to its bounds". *)
Definition clampSize (p : Pane) (size : Z) : Z :=
  Z.max (minimumSize p)
        (match maximumSize p with Some m => Z.min size m | None => size end).

(** [sum(pane.currentSize for pane in panes)] *)
Definition total (ps : list Pane) : Z :=
  fold_right (fun p acc => currentSize p + acc) 0 ps.

Definition sum (zs : list Z) : Z := fold_right Z.add 0 zs.

(** Sums of the bounds; a sum of maxima is +Infinity as soon as one is. *)
Definition sum_min (ps : list Pane) : Z :=
  fold_right (fun p acc => minimumSize p + acc) 0 ps.

Definition add_bound (a b : option Z) : option Z :=
  match a, b with
  | Some x, Some y => Some (x + y)
  | _, _ => None
  end.

Definition sum_max (ps : list Pane) : option Z :=
  fold_right (fun p acc => add_bound (maximumSize p) acc) (Some 0) ps.

(** [x <= b] for a bound that may be +Infinity. *)
Definition le_bound (x : Z) (b : option Z) : Prop :=
  match b with Some m => x <= m | None => True end.

Definition min_bound (x : Z) (b : option Z) : Z :=
  match b with Some m => Z.min x m | None => x end.

(** Modelled from the spec: the cascade, "propagation of a size delta from
    one pane to its neighbors when the originating pane cannot absorb the
    full delta within its bounds" (section 9: [redistribute(panes, delta,
    order) -> newSizes]).  The eligible panes of [ps] are visited in the
    order of the list; each takes what its bounds allow of what is left of
    [delta]; the result carries what no pane could take. *)
Fixpoint cascade (eligible : Pane -> bool) (delta : Z) (ps : list Pane)
  : list Pane * Z :=
  match ps with
  | [] => ([], delta)
  | p :: ps' =>
      if eligible p then
        let size := clampSize p (currentSize p + delta) in
        let (ps'', rest) :=
          cascade eligible (delta - (size - currentSize p)) ps' in
        (resized p size :: ps'', rest)
      else
        let (ps'', rest) := cascade eligible delta ps' in
        (p :: ps'', rest)
  end.

Definition everyPane (p : Pane) : bool := true.

Definition hasPriority (q : LayoutPriority) (p : Pane) : bool :=
  match q, priority p with
  | High, High | Normal, Normal | Low, Low => true
  | _, _ => false
  end.

(** "in priority order (High before Normal before Low), then in sequence
    order" *)
Definition cascadeByPriority (delta : Z) (ps : list Pane) : list Pane * Z :=
  let (ps, delta) := cascade (hasPriority High) delta ps in
  let (ps, delta) := cascade (hasPriority Normal) delta ps in
  cascade (hasPriority Low) delta ps.

(** "split proportional to each pane's [(currentSize / containerSize)], then
    clamped per-pane to [[minimumSize, maximumSize]]"; a share is rounded
    down to a whole unit. *)
Definition proportionalShares (delta whole : Z) (ps : list Pane) : list Pane :=
  map (fun p =>
         resized p (clampSize p (currentSize p + delta * currentSize p / whole)))
      ps.

(** Modelled from the spec: [layout(newContainerSize)], "recomputes
    [containerSize] and redistributes the delta ([newContainerSize -
    containerSize]) across panes.  If [proportionalLayout], delta is split
    proportional [...], then clamped per-pane [...]; any residual unclamped
    delta cascades to the next eligible pane in priority order [...].  If
    not proportional, delta is applied only to panes whose [priority] is the
    highest priority present, cascading down priority tiers only when higher
    tiers are saturated at their bounds."  What no pane can take is
    dropped: such conflicts "are not errors". *)
Definition layout (newContainerSize : Z) (e : Engine) : Engine :=
  let delta := newContainerSize - containerSize e in
  let ps :=
    if proportionalLayout e then
      let shared := proportionalShares delta (containerSize e) (panes e) in
      let residual := delta - (total shared - total (panes e)) in
      fst (cascadeByPriority residual shared)
    else fst (cascadeByPriority delta (panes e)) in
  {| orientation := orientation e; panes := ps;
     containerSize := newContainerSize;
     proportionalLayout := proportionalLayout e |}.

(** Modelled from the spec: [resizeView(index, size)], "sets pane [index]'s
    size to [size] (clamped to its bounds), and the exact opposite delta is
    pushed onto adjacent panes - first the immediate neighbor on the side
    away from the resize origin, cascading further only if that neighbor
    saturates."  The panes after [index] are taken first, nearest first,
    then the panes before it, nearest first. *)
Definition resizeView (index : nat) (size : Z) (e : Engine) : Error + Engine :=
  match nth_error (panes e) index with
  | None => inl InvalidIndex
  | Some p =>
      let size := clampSize p size in
      let delta := size - currentSize p in
      let (following, rest) :=
        cascade everyPane (- delta) (skipn (S index) (panes e)) in
      let (preceding, _) :=
        cascade everyPane rest (rev (firstn index (panes e))) in
      inr (with_panes (rev preceding ++ resized p size :: following) e)
  end.

(** Modelled from the spec: [resizeViews(sizes)], "bulk overwrite; fails with
    [SizeMismatch] if [sizes.length !== panes.length]; fails with
    [SizeSumMismatch] if the sum does not equal [containerSize] (allow a
    small rounding tolerance, e.g. <= panes.length units)". *)
Definition resizeViews (sizes : list Z) (e : Engine) : Error + Engine :=
  if negb (List.length sizes =? List.length (panes e))%nat then inl SizeMismatch
  else if Z.of_nat (List.length (panes e)) <? Z.abs (sum sizes - containerSize e)
  then inl SizeSumMismatch
  else inr (with_panes (map (fun ps => resized (fst ps) (snd ps))
                            (combine (panes e) sizes)) e).

(** A pane during even distribution: still unconstrained ([None]), or
    holding the bound value it absorbed. *)
Definition slot := (Pane * option Z)%type.

Definition heldTotal (ss : list slot) : Z :=
  fold_right (fun s acc => match snd s with Some b => b + acc | None => acc end)
             0 ss.

Definition freeCount (ss : list slot) : nat :=
  List.length (filter (fun s => match snd s with None => true | Some _ => false end) ss).

(** The equal share of what the held panes leave, rounded down. *)
Definition equalShare (whole : Z) (ss : list slot) : Z :=
  (whole - heldTotal ss) / Z.of_nat (freeCount ss).

(** "panes that cannot take an equal share because of bounds absorb their
    bound value" *)
Definition constrain (share : Z) (s : slot) : slot :=
  match s with
  | (p, None) =>
      if share <? minimumSize p then (p, Some (minimumSize p))
      else match maximumSize p with
           | Some m => if m <? share then (p, Some m) else (p, None)
           | None => (p, None)
           end
  | held => held
  end.

(** "and the remaining panes redistribute the residual evenly among
    themselves (iterate to fixpoint [...])" *)
Fixpoint settle (fuel : nat) (whole : Z) (ss : list slot) : list slot :=
  match fuel with
  | O => ss
  | S fuel' =>
      let ss' := map (constrain (equalShare whole ss)) ss in
      if (freeCount ss' =? freeCount ss)%nat then ss
      else settle fuel' whole ss'
  end.

Definition assignShares (whole : Z) (ss : list slot) : list Pane :=
  map (fun s => resized (fst s)
                  (match snd s with
                   | Some b => b
                   | None => equalShare whole ss
                   end))
      ss.

Definition settled (e : Engine) : list slot :=
  settle (S (List.length (panes e))) (containerSize e)
         (map (fun p => (p, None)) (panes e)).

(** Modelled from the spec: [distributeViewSizes()], "resets every pane to
    an equal share of [containerSize], still respecting each pane's
    [[minimumSize, maximumSize]]". *)
Definition distributeViewSizes (e : Engine) : Engine :=
  with_panes (assignShares (containerSize e) (settled e)) e.

Definition insertAt {A : Type} (index : nat) (x : A) (l : list A) : list A :=
  firstn index l ++ x :: skipn index l.

Definition replaceAt {A : Type} (index : nat) (x : A) (l : list A) : list A :=
  firstn index l ++ x :: skipn (S index) l.

(** Modelled from the spec: [addView(pane, sizingMode, index?)], "inserts
    [pane] at [index] (default: end).  [...]  Distribute re-runs even
    redistribution across all panes including the new one.  Split takes half
    of [neighborIndex]'s current size and gives it to the new pane, clamped
    to both panes' constraints.  Fails with [InvalidIndex] if [index] is out
    of [[0, panes.length]]."  In a split the half is clamped to the new
    pane's bounds, the neighbor keeps what is left clamped to its own, and
    the new pane is given what the neighbor gave up; a [neighborIndex] out
    of range is an [InvalidIndex] too. *)
Definition addView (pane : Pane) (sizing : Sizing) (index : option nat)
    (e : Engine) : Error + Engine :=
  let index :=
    match index with Some i => i | None => List.length (panes e) end in
  if (List.length (panes e) <? index)%nat then inl InvalidIndex
  else
    match sizing with
    | Distribute =>
        inr (distributeViewSizes (with_panes (insertAt index pane (panes e)) e))
    | Split neighborIndex =>
        match nth_error (panes e) neighborIndex with
        | None => inl InvalidIndex
        | Some neighbor =>
            let half := currentSize neighbor / 2 in
            let offered := clampSize pane half in
            let kept := clampSize neighbor (currentSize neighbor - offered) in
            let given := currentSize neighbor - kept in
            let ps := replaceAt neighborIndex (resized neighbor kept) (panes e) in
            inr (with_panes (insertAt index (resized pane given) ps) e)
        end
    end.

(** The rightmost pane takes [remainder], whatever its bounds. *)
Definition absorbAtRightmost (remainder : Z) (ps : list Pane) : list Pane :=
  match rev ps with
  | [] => []
  | p :: others => rev (resized p (currentSize p + remainder) :: others)
  end.

(** Modelled from the spec: [removeView(index) -> Pane], "removes the pane at
    [index]; its vacated size is redistributed to remaining panes
    proportional to their current share (or, if none can absorb it, the
    rightmost pane absorbs the remainder).  Fails with [InvalidIndex] if out
    of range."  The shares are clamped to the bounds of the panes that take
    them, and what is then left goes to the rightmost pane. *)
Definition removeView (index : nat) (e : Engine) : Error + (Pane * Engine) :=
  match nth_error (panes e) index with
  | None => inl InvalidIndex
  | Some removed =>
      let remaining := firstn index (panes e) ++ skipn (S index) (panes e) in
      let vacated := currentSize removed in
      let shared := proportionalShares vacated (total remaining) remaining in
      let remainder := vacated - (total shared - total remaining) in
      inr (removed, with_panes (absorbAtRightmost remainder shared) e)
  end.

(** Room left in a run of panes: down to their minima, up to their maxima. *)
Definition shrinkRoom (ps : list Pane) : Z := total ps - sum_min ps.

Definition growRoom (ps : list Pane) : option Z :=
  option_map (fun m => m - total ps) (sum_max ps).

(** Modelled from the spec: sash-level adjustment, "boundary [i] between pane
    [i] and [i+1], delta [d]: shrinks pane [i] by [d] and grows pane [i+1]
    by [d] (or inverse), each clamped to bounds; if the clamp absorbs less
    than [d], the remainder cascades outward from the sash [...] until fully
    absorbed or no capacity remains, in which case the adjustment is
    truncated (partial success, not an error)."  A non-negative [d] shrinks
    the panes before the sash; the adjustment is truncated to the room on
    either side; a boundary with no pane after it is an [InvalidIndex]. *)
Definition adjustSash (boundary : nat) (delta : Z) (e : Engine) : Error + Engine :=
  if (List.length (panes e) <=? S boundary)%nat then inl InvalidIndex
  else
    let before := rev (firstn (S boundary) (panes e)) in
    let after := skipn (S boundary) (panes e) in
    let moved :=
      if 0 <=? delta
      then min_bound (Z.min delta (shrinkRoom before)) (growRoom after)
      else - min_bound (Z.min (- delta) (shrinkRoom after)) (growRoom before) in
    let (before', _) := cascade everyPane (- moved) before in
    let (after', _) := cascade everyPane moved after in
    inr (with_panes (rev before' ++ after') e).

(** The operations the sum invariant is stated for. *)
Inductive operation :=
| Layout (newContainerSize : Z)
| ResizeView (index : nat) (size : Z)
| ResizeViews (sizes : list Z)
| AddView (pane : Pane) (sizing : Sizing) (index : option nat)
| RemoveView (index : nat)
| AdjustSash (boundary : nat) (delta : Z).

Definition perform (op : operation) (e : Engine) : Error + Engine :=
  match op with
  | Layout newContainerSize => inr (layout newContainerSize e)
  | ResizeView index size => resizeView index size e
  | ResizeViews sizes => resizeViews sizes e
  | AddView pane sizing index => addView pane sizing index e
  | RemoveView index =>
      match removeView index e with
      | inl err => inl err
      | inr (_, e') => inr e'
      end
  | AdjustSash boundary delta => adjustSash boundary delta e
  end.

(** The bounds property of a pane that is not collapsed. *)
Definition withinBounds (p : Pane) : Prop :=
  minimumSize p <= currentSize p /\ le_bound (currentSize p) (maximumSize p).

(** The sum invariant, with its rounding tolerance. *)
Definition sumInvariant (e : Engine) : Prop :=
  Z.abs (total (panes e) - containerSize e) <= Z.of_nat (List.length (panes e)).

(** A state the operations start from: every pane within its bounds, and the
    sizes summing to the container size. *)
Definition settledState (e : Engine) : Prop :=
  Forall withinBounds (panes e) /\ total (panes e) = containerSize e.

(** The panes other than the one at [index]. *)
Definition others (index : nat) (ps : list Pane) : list Pane :=
  firstn index ps ++ skipn (S index) ps.

(** The bounds can absorb the change an operation asks for. *)
Definition absorbable (op : operation) (e : Engine) : Prop :=
  match op with
  | Layout newContainerSize =>
      sum_min (panes e) <= newContainerSize /\
      le_bound newContainerSize (sum_max (panes e))
  | ResizeView index size =>
      match nth_error (panes e) index with
      | Some p =>
          let rest := containerSize e - clampSize p size in
          sum_min (others index (panes e)) <= rest /\
          le_bound rest (sum_max (others index (panes e)))
      | None => True
      end
  | ResizeViews _ => True
  | AddView pane Distribute index =>
      let index :=
        match index with Some i => i | None => List.length (panes e) end in
      (0 < freeCount (settled (with_panes (insertAt index pane (panes e)) e)))%nat
  | AddView _ (Split _) _ => True
  | RemoveView _ => (2 <= List.length (panes e))%nat
  | AdjustSash _ _ => True
  end.

(** The fixpoint of the even distribution: constraining by the equal share
    holds no further pane. *)
Definition stable (whole : Z) (ss : list slot) : Prop :=
  freeCount (map (constrain (equalShare whole ss)) ss) = freeCount ss.

(** A free pane can take the share [x]. *)
Definition canTake (x : Z) (s : slot) : Prop :=
  match s with
  | (p, None) => minimumSize p <= x /\ le_bound x (maximumSize p)
  | (_, Some _) => True
  end.




(** A pane of normal priority without snap, and a horizontal engine, for
    the examples. *)
Definition pane (lo : Z) (hi : option Z) (size : Z) : Pane :=
  {| minimumSize := lo; maximumSize := hi; priority := Normal; snap := false;
     currentSize := size |}.

Definition engine (ps : list Pane) (size : Z) (proportional : bool) : Engine :=
  {| orientation := Horizontal; panes := ps; containerSize := size;
     proportionalLayout := proportional |}.

End SplitView.

(* ================================================================== *)
(** * helpers/platform *)
(* ================================================================== *)

Module Platform.

(** [interface INavigator]; [maxTouchPoints] is optional. *)
Record INavigator := {
  maxTouchPoints : option number;
  userAgent : jsstring
}.

(** The exported constants. *)
Record flags := {
  isIOS : bool;
  isMacintosh : bool;
  isApple : bool;
  isWebkit : bool
}.

Definition contains (haystack : jsstring) (needle : string) : bool :=
  (0 <=? indexOf haystack (lit needle))%Z.

(** The module body: the flags stay [false] unless [typeof navigator] is
    ["object"], that is unless there is a navigator. *)
Definition detect (navigator : option INavigator) : flags :=
  match navigator with
  | None =>
      {| isIOS := false; isMacintosh := false; isApple := false;
         isWebkit := false |}
  | Some navigator =>
      let _userAgent := userAgent navigator in
      let _isMacintosh := contains _userAgent "Macintosh" in
      let _isIOS :=
        (contains _userAgent "Macintosh" || contains _userAgent "iPad"
         || contains _userAgent "iPhone")
        && match maxTouchPoints navigator with
           | Some n => ToBoolean (VNumber n) && PrimFloat.ltb 0 n
           | None => false
           end in
      let _isWebkit :=
        contains _userAgent "WebKit"
        && (indexOf _userAgent (lit "Chrome") <? 0)%Z in
      {| isIOS := _isIOS; isMacintosh := _isMacintosh;
         isApple := _isIOS || _isMacintosh; isWebkit := _isWebkit |}
  end.

(** [needle] occurs somewhere in [s]. *)
Definition occurs (needle : string) (s : jsstring) : Prop :=
  exists before after, s = before ++ lit needle ++ after.

End Platform.

(* ================================================================== *)
(** * allotment: the component *)
(* ================================================================== *)

(** The parts of the [Allotment] component that compute: the options of the
    pane views it creates, the reset of a sash, the resize observer, the
    mount, and the effect that reconciles the views with the children.  The
    engine ([SplitView]) is a collaborator of which only the calls made to
    it are kept, in order; what it answers to [isViewVisible] is a parameter.
    Children and the elements of panes are DOM elements, compared by
    identity. *)
Module Allotment.

Local Open Scope Z_scope.

(** [PaneProps] with [CommonProps], without [ref], [children] and [class]. *)
Record PaneProps := {
  p_preferredSize : value;
  p_priority : option LayoutPriority;
  p_visible : value;
  p_maxSize : value;
  p_minSize : value;
  p_snap : value
}.

(** [AllotmentProps] with [CommonProps]; of the callbacks only whether they
    are given. *)
Record AllotmentProps := {
  a_defaultSizes : option (list number);
  a_proportionalLayout : value;
  a_vertical : value;
  a_onReset : bool;
  a_maxSize : value;
  a_minSize : value;
  a_snap : value
}.

(** [isPaneProps(props)] *)
Definition isPaneProps (props : PaneProps) : bool :=
  negb (strict_equal (p_minSize props) VUndefined)
  || negb (strict_equal (p_maxSize props) VUndefined)
  || negb (strict_equal (p_preferredSize props) VUndefined)
  || (match p_priority props with Some _ => true | None => false end)
  || negb (strict_equal (p_visible props) VUndefined).

(** A [Map] with elements as keys, in insertion order. *)
Definition Map (V : Type) := list (HTMLElement * V).

Fixpoint mapGet {V : Type} (m : Map V) (key : HTMLElement) : option V :=
  match m with
  | [] => None
  | (k, v) :: m' => if Pos.eqb k key then Some v else mapGet m' key
  end.

(** A call made on [splitViewRef], or on a callback of the host. *)
Inductive Call :=
| CallRemoveView (index : Z)
| CallAddView (container : option HTMLElement) (view : PaneView) (index : Z)
| CallMoveView (container : option HTMLElement) (from to : Z)
| CallResizeView (index : Z) (size : number)
| CallSetViewVisible (index : Z) (visible : value)
| CallLayout (size : option number)
| CallDistributeViewSizes
| CallOnReset.

(** How a run of code ends: normally, with a [TypeError] for a property read
    off [undefined], or not at all. *)
Inductive outcome (A : Type) :=
| Returned (a : A)
| TypeError
| Diverges.

Arguments Returned {A} a.
Arguments TypeError {A}.
Arguments Diverges {A}.

Definition bind {A B : Type} (m : outcome A) (f : A -> outcome B) : outcome B :=
  match m with
  | Returned a => f a
  | TypeError => TypeError
  | Diverges => Diverges
  end.

(** A loop [for (const x of l)] over a body that may throw. *)
Fixpoint forEach {A S : Type} (body : S -> A -> outcome S) (l : list A) (s : S)
  : outcome S :=
  match l with
  | [] => Returned s
  | x :: l' => bind (body s x) (forEach body l')
  end.

(** [l.includes(node)] and [pane === node] on elements. *)
Definition includes (node : HTMLElement) (l : list HTMLElement) : bool :=
  existsb (Pos.eqb node) l.

Definition same (node : HTMLElement) (pane : option HTMLElement) : bool :=
  match pane with Some p => Pos.eqb p node | None => false end.

(** [lodash.isequal] on two arrays of elements: the same length, and each
    element identical to the one at its place. *)
Fixpoint isEqual (nodes : list HTMLElement) (panes : list (option HTMLElement))
  : bool :=
  match nodes, panes with
  | [], [] => true
  | node :: nodes', pane :: panes' => same node pane && isEqual nodes' panes'
  | _, _ => false
  end.

(** The last [onMount]: [if (isIOS) { setSashSize(20); }] *)
Definition onMountSash (platform : Platform.flags) (g : Globals) : Globals :=
  if Platform.isIOS platform then setSashSize 20%float g else g.

Section Component.

Variable layoutService : LayoutServiceRef.
Variable props : AllotmentProps.
Variable splitViewPropsRef : Map PaneProps.
Variable splitViewViewRef : Map HTMLElement.

(** The options of [new PaneView(layoutService, {...})], written twice in
    the component with the same text: [svProps?.minSize ?? props.minSize]
    and so on, [preferredSize] being spread in only when it is truthy. *)
Definition paneViewOptions (svProps : option PaneProps) (element : HTMLElement)
  : PaneViewOptions :=
  let declared (field : PaneProps -> value) : value :=
    match svProps with Some sv => field sv | None => VUndefined end in
  {| opt_element := element;
     opt_minimumSize := coalesce (declared p_minSize) (a_minSize props);
     opt_maximumSize := coalesce (declared p_maxSize) (a_maxSize props);
     opt_priority :=
       Some (match svProps with
             | Some sv =>
                 match p_priority sv with Some q => q | None => Normal end
             | None => Normal
             end);
     opt_preferredSize :=
       if ToBoolean (declared p_preferredSize) then declared p_preferredSize
       else VUndefined;
     opt_snap := coalesce (declared p_snap) (a_snap props) |}.

Definition createPaneView (svProps : option PaneProps) (element : HTMLElement)
  : PaneView :=
  new_PaneView layoutService (paneViewOptions svProps element).

(** [resizeToPreferredSize(index)], with the calls it makes. *)
Definition resizeToPreferredSize (h : Heap) (views : list PaneView) (index : Z)
  : bool * list Call :=
  match item views index with
  | Some view =>
      match preferredSize h view with
      | Some size => (true, [CallResizeView index (Math_round size)])
      | None => (false, [])
      end
  | None => (false, [])
  end.

(** The listener of ["sashreset"], [index] being the detail of the event. *)
Definition onSashReset (h : Heap) (views : list PaneView) (index : Z) : list Call :=
  if a_onReset props then [CallOnReset]
  else
    let (done, calls) := resizeToPreferredSize h views index in
    if done then calls
    else
      let (done', calls') := resizeToPreferredSize h views (index + 1) in
      if done' then calls ++ calls'
      else calls ++ calls' ++ [CallDistributeViewSizes].

(** The callback of the resize observer: the calls it makes, the heap
    afterwards, and whether it has set [dimensionsInitialized]. *)
Definition onResize (width height : number) (h : Heap)
  : list Call * Heap * bool :=
  if ToBoolean (VNumber width) && ToBoolean (VNumber height) then
    let size := if ToBoolean (a_vertical props) then height else width in
    ([CallLayout (Some size)], heap_update layoutService (setSize size) h, true)
  else ([], h, false).

(** The state of the component between two runs of its code: the variables
    [previousNodes] and [views], the calls made so far, and the next element
    [document.createElement] returns. *)
Record Component := {
  previousNodes : list HTMLElement;
  views : list PaneView;
  calls : list Call;
  nextElement : HTMLElement
}.

(** The first [onMount]: whether the sizes are initialised, [previousNodes],
    the views pushed for the descriptor, and the descriptor's [size] and
    [views] ([container], [size], [view]) when there is one. *)
Record Mounted := {
  initializeSizes : bool;
  mountedNodes : list HTMLElement;
  mountedViews : list PaneView;
  descriptor : option (number * list (option HTMLElement * number * PaneView));
  afterMount : HTMLElement
}.

Fixpoint descriptorViews (sizes : list number) (index : nat)
    (previousNodes : list HTMLElement) (next : HTMLElement)
  : list (option HTMLElement * number * PaneView) :=
  match sizes with
  | [] => []
  | size :: sizes' =>
      let svProps :=
        match nth_error previousNodes index with
        | Some node => mapGet splitViewPropsRef node
        | None => None
        end in
      let view := createPaneView svProps next in
      (option_map snd (nth_error splitViewViewRef index), size, view)
      :: descriptorViews sizes' (S index) previousNodes (Pos.succ next)
  end.

Definition mount (children : list HTMLElement) (next : HTMLElement) : Mounted :=
  match a_defaultSizes props with
  | Some defaultSizes =>
      if negb (List.length splitViewViewRef =? List.length defaultSizes)%nat then
        {| initializeSizes := false; mountedNodes := []; mountedViews := [];
           descriptor := None; afterMount := next |}
      else
        let described := descriptorViews defaultSizes 0 children next in
        {| initializeSizes := true; mountedNodes := children;
           mountedViews := map snd described;
           descriptor :=
             Some (fold_left PrimFloat.add defaultSizes 0%float, described);
           afterMount := Nat.iter (List.length defaultSizes) Pos.succ next |}
  | None =>
      {| initializeSizes := true; mountedNodes := []; mountedViews := [];
         descriptor := None; afterMount := next |}
  end.

(** *** The effect that adds, removes and updates views as children change *)

(** The loop over [exit], from its last index down: a child that has left
    is removed from the engine, from [panes] and from [views]. *)
Definition removeStep (exit : list bool)
    (s : list (option HTMLElement) * list PaneView * list Call) (index : nat)
  : list (option HTMLElement) * list PaneView * list Call :=
  let '(panes, views, calls) := s in
  if nth index exit false then
    (splice (Z.of_nat index) 1 [] panes,
     splice (Z.of_nat index) 1 [] views,
     calls ++ [CallRemoveView (Z.of_nat index)])
  else s.

Definition removeExited (exit : list bool)
    (s : list (option HTMLElement) * list PaneView * list Call)
  : list (option HTMLElement) * list PaneView * list Call :=
  fold_left (removeStep exit) (rev (seq 0 (List.length exit))) s.

(** The loop over [enter]: a view is built for a child that has come, added
    to the engine at the child's index among the children, and spliced into
    [panes] and [views] at that index. *)
Definition enterStep (nodes : list HTMLElement)
    (s : list (option HTMLElement) * list PaneView * list Call * HTMLElement)
    (enterNode : HTMLElement)
  : list (option HTMLElement) * list PaneView * list Call * HTMLElement :=
  let '(panes, views, calls, next) := s in
  let svProps := mapGet splitViewPropsRef enterNode in
  let view := createPaneView svProps next in
  let index := findIndex (Pos.eqb enterNode) nodes in
  (splice index 0 [Some enterNode] panes,
   splice index 0 [view] views,
   calls ++ [CallAddView (mapGet splitViewViewRef enterNode) view index],
   Pos.succ next).

Definition addEntered (nodes enter : list HTMLElement)
    (s : list (option HTMLElement) * list PaneView * list Call * HTMLElement)
  : list (option HTMLElement) * list PaneView * list Call * HTMLElement :=
  fold_left (enterStep nodes) enter s.

(** The [for] loop inside the [while]: the first child, at index [i], that
    [panes] holds at another index, with that index. *)
Fixpoint firstMisplaced (nodes : list HTMLElement) (i : Z)
    (panes : list (option HTMLElement)) : option (HTMLElement * Z * Z) :=
  match nodes with
  | [] => None
  | node :: nodes' =>
      let index := findIndex (same node) panes in
      if index =? i then firstMisplaced nodes' (i + 1) panes
      else Some (node, index, i)
  end.

(** One round of the [while]: the pane of the first misplaced child is moved
    to the child's index, in the engine and in [panes]. *)
Definition moveStep (nodes : list HTMLElement)
    (s : list (option HTMLElement) * list Call)
  : list (option HTMLElement) * list Call :=
  let (panes, calls) := s in
  match firstMisplaced nodes 0 panes with
  | Some (node, index, i) =>
      let tempNode :=
        match item panes index with Some pane => pane | None => None end in
      (splice i 0 [tempNode] (splice index 1 [] panes),
       calls ++ [CallMoveView (mapGet splitViewViewRef node) index i])
  | None => s
  end.

(** [while (!isEqual(nodes, panes))], for at most [fuel] rounds. *)
Fixpoint movePanes (fuel : nat) (nodes : list HTMLElement)
    (s : list (option HTMLElement) * list Call)
  : outcome (list (option HTMLElement) * list Call) :=
  if isEqual nodes (fst s) then Returned s
  else
    match fuel with
    | O => Diverges
    | S fuel' => movePanes fuel' nodes (moveStep nodes s)
    end.

(** The second loop over [enter]: a view that has a preferred size is
    resized to it. *)
Definition resizeEntered (h : Heap) (nodes : list HTMLElement)
    (views : list PaneView) (calls : list Call) (enterNode : HTMLElement)
  : outcome (list Call) :=
  let index := findIndex (Pos.eqb enterNode) nodes in
  match item views index with
  | None => TypeError
  | Some view =>
      match preferredSize h view with
      | Some size => Returned (calls ++ [CallResizeView index size])
      | None => Returned calls
      end
  end.

Variable isViewVisible : list Call -> Z -> value.

(** The loop over [[...enter, ...update]]: a declared visibility the
    engine does not have is set. *)
Definition showOrHide (nodes : list HTMLElement) (calls : list Call)
    (updateNode : HTMLElement) : list Call :=
  let index := findIndex (Pos.eqb updateNode) nodes in
  match mapGet splitViewPropsRef updateNode with
  | Some svProps =>
      if isPaneProps svProps
         && negb (strict_equal (p_visible svProps) VUndefined)
         && negb (strict_equal (isViewVisible calls index) (p_visible svProps))
      then calls ++ [CallSetViewVisible index (p_visible svProps)]
      else calls
  | None => calls
  end.

(** [a[index] = x] on an array that has the index. *)
Definition setItem {A : Type} (l : list A) (index : Z) (x : A) : list A :=
  firstn (Z.to_nat index) l ++ x :: skipn (S (Z.to_nat index)) l.

(** One test-and-assignment of the last loop: [views[index]] is read only
    when the property is declared. *)
Definition updateField (declared : value)
    (current : PaneView -> value) (assignTo : value -> PaneView -> PaneView)
    (views : list PaneView) (index : Z) : outcome (list PaneView * bool) :=
  if negb (strict_equal declared VUndefined) then
    match item views index with
    | None => TypeError
    | Some view =>
        if negb (strict_equal (current view) declared)
        then Returned (setItem views index (assignTo declared view), true)
        else Returned (views, false)
    end
  else Returned (views, false).

(** The loop over [update]: the declared [preferredSize], [minSize] and
    [maxSize] that differ from the view's are assigned, and the engine is
    laid out again when a bound has changed. *)
Definition updateView (h : Heap) (nodes : list HTMLElement)
    (s : list PaneView * list Call) (updateNode : HTMLElement)
  : outcome (list PaneView * list Call) :=
  let (views, calls) := s in
  let index := findIndex (Pos.eqb updateNode) nodes in
  match mapGet splitViewPropsRef updateNode with
  | Some svProps =>
      if isPaneProps svProps then
        bind (updateField (p_preferredSize svProps)
                (fun view => of_option (preferredSize h view))
                set_preferredSize views index)
          (fun r1 =>
        bind (updateField (p_minSize svProps)
                (fun view => VNumber (minimumSize view))
                set_minimumSize (fst r1) index)
          (fun r2 =>
        bind (updateField (p_maxSize svProps)
                (fun view => VNumber (maximumSize view))
                set_maximumSize (fst r2) index)
          (fun r3 =>
        let sizeChanged := snd r2 || snd r3 in
        Returned (fst r3,
                  if sizeChanged then calls ++ [CallLayout None] else calls))))
      else Returned s
  | None => Returned s
  end.

(** The body of the effect, for the children [nodes], once the dimensions
    are initialised ([splitViewRef] is set by then); the [while] loop is
    given [fuel] rounds. *)
Definition effect (fuel : nat) (h : Heap) (nodes : list HTMLElement)
    (c : Component) : outcome Component :=
  let panes := map Some (previousNodes c) in
  let enter := filter (fun node => negb (includes node (previousNodes c))) nodes in
  let update := filter (fun node => includes node (previousNodes c)) nodes in
  let exit := map (fun node => negb (includes node nodes)) (previousNodes c) in
  let '(panes, views, calls) := removeExited exit (panes, views c, calls c) in
  let '(panes, views, calls, next) :=
    addEntered nodes enter (panes, views, calls, nextElement c) in
  bind (movePanes fuel nodes (panes, calls)) (fun moved =>
  bind (forEach (resizeEntered h nodes views) enter (snd moved)) (fun calls =>
  let calls := fold_left (showOrHide nodes) (enter ++ update) calls in
  bind (forEach (updateView h nodes) update (views, calls)) (fun updated =>
  let previousNodes :=
    if (0 <? List.length enter)%nat || (0 <? List.length exit)%nat
    then nodes else previousNodes c in
  Returned {| previousNodes := previousNodes; views := fst updated;
              calls := snd updated; nextElement := next |}))).

End Component.

(** One test of the last loop, [declared !== undefined && current !==
    declared], and the assignment it guards, on the view they concern. *)
Definition assigns (declared : value) (current : PaneView -> value)
    (view : PaneView) : bool :=
  negb (strict_equal declared VUndefined)
  && negb (strict_equal (current view) declared).

Definition assignField (declared : value) (current : PaneView -> value)
    (assignTo : value -> PaneView -> PaneView) (view : PaneView) : PaneView :=
  if assigns declared current view then assignTo declared view else view.

(** The view after the three assignments of the last loop, and the flag
    [sizeChanged]. *)
Definition afterUpdate (h : Heap) (svProps : PaneProps) (view : PaneView)
  : PaneView :=
  assignField (p_maxSize svProps) (fun view => VNumber (maximumSize view))
    set_maximumSize
    (assignField (p_minSize svProps) (fun view => VNumber (minimumSize view))
       set_minimumSize
       (assignField (p_preferredSize svProps)
          (fun view => of_option (preferredSize h view)) set_preferredSize view)).

Definition sizeChanged (svProps : PaneProps) (view : PaneView) : bool :=
  assigns (p_minSize svProps) (fun view => VNumber (minimumSize view)) view
  || assigns (p_maxSize svProps) (fun view => VNumber (maximumSize view)) view.

(** A declared bound that the update loop assigns once: [undefined], or a
    number other than NaN. *)
Definition settling (declared : value) : Prop :=
  declared = VUndefined \/
  exists n, declared = VNumber n /\ PrimFloat.eqb n n = true.

(** The views the loop over [enter] creates for [nodes], on the elements
    from [next] on, and the calls [addView] it makes when they enter at the
    indices from [index] on. *)
Fixpoint freshViews (layoutService : LayoutServiceRef) (props : AllotmentProps)
    (splitViewPropsRef : Map PaneProps) (nodes : list HTMLElement)
    (next : HTMLElement) : list PaneView :=
  match nodes with
  | [] => []
  | node :: nodes' =>
      createPaneView layoutService props (mapGet splitViewPropsRef node) next
      :: freshViews layoutService props splitViewPropsRef nodes' (Pos.succ next)
  end.

Fixpoint additions (splitViewViewRef : Map HTMLElement) (index : Z)
    (nodes : list HTMLElement) (created : list PaneView) : list Call :=
  match nodes, created with
  | node :: nodes', view :: created' =>
      CallAddView (mapGet splitViewViewRef node) view index
      :: additions splitViewViewRef (index + 1) nodes' created'
  | _, _ => []
  end.

(** How many panes the engine holds after a call, given how many it held. *)
Definition paneCountAfter (count : Z) (c : Call) : Z :=
  match c with
  | CallRemoveView _ => count - 1
  | CallAddView _ _ _ => count + 1
  | _ => count
  end.

(** The indices of a call are in range for an engine holding [count] panes:
    from 0 up to [count] for an insertion, below [count] otherwise. *)
Definition inRange (count : Z) (c : Call) : bool :=
  match c with
  | CallRemoveView i => (0 <=? i) && (i <? count)
  | CallAddView _ _ i => (0 <=? i) && (i <=? count)
  | CallMoveView _ from to =>
      (0 <=? from) && (from <? count) && (0 <=? to) && (to <? count)
  | CallResizeView i _ => (0 <=? i) && (i <? count)
  | CallSetViewVisible i _ => (0 <=? i) && (i <? count)
  | _ => true
  end.

Fixpoint allInRange (count : Z) (cs : list Call) : bool :=
  match cs with
  | [] => true
  | c :: cs' => inRange count c && allInRange (paneCountAfter count c) cs'
  end.

(** What [for (index = marks.length - 1; index >= 0; index--)
    if (marks[index]) l.splice(index, 1)] leaves of [l]. *)
Fixpoint dropMarked {A : Type} (marks : list bool) (l : list A) : list A :=
  match marks, l with
  | mark :: marks', x :: l' =>
      if mark then dropMarked marks' l' else x :: dropMarked marks' l'
  | _, _ => l
  end.

(** A call that changes which panes the engine holds, or their order. *)
Definition structural (c : Call) : bool :=
  match c with
  | CallRemoveView _ | CallAddView _ _ _ | CallMoveView _ _ _ => true
  | _ => false
  end.

End Allotment.

(* ================================================================== *)
(** * Properties of the built-ins and helpers *)
(* ================================================================== *)

Lemma string_equal_refl (s : jsstring) : string_equal s s = true.
Proof.
  induction s as [|c s IH]; simpl; [reflexivity|].
  now rewrite N.eqb_refl, IH.
Qed.

Lemma endsWith_app (n suffix : jsstring) : endsWith (n ++ suffix) suffix = true.
Proof.
  unfold endsWith. rewrite length_app.
  replace (List.length n + List.length suffix - List.length suffix)%nat
    with (List.length n) by lia.
  rewrite skipn_app, skipn_all, Nat.sub_diag. simpl.
  rewrite string_equal_refl, andb_true_r.
  apply Nat.leb_le. lia.
Qed.

Lemma slice_0_neg_app (n suffix : jsstring) :
  slice_0_neg (n ++ suffix) (List.length suffix) = n.
Proof.
  unfold slice_0_neg. rewrite length_app.
  replace (List.length n + List.length suffix - List.length suffix)%nat
    with (List.length n) by lia.
  rewrite firstn_app, firstn_all, Nat.sub_diag. simpl. apply app_nil_r.
Qed.

(** A string whose last code unit is not [c] does not end in the one-unit
    string [c]. *)
Lemma endsWith_last_differs (n : jsstring) (a c : code_unit) :
  a <> c -> endsWith (n ++ [a]) [c] = false.
Proof.
  intros Hac. unfold endsWith. rewrite length_app. simpl.
  replace (List.length n + 1 - 1)%nat with (List.length n) by lia.
  rewrite skipn_app, skipn_all, Nat.sub_diag. simpl.
  apply N.eqb_neq in Hac. rewrite Hac. simpl. apply andb_false_r.
Qed.

(** Two numbers that compare differently with some bound are different. *)
Lemma number_neq (x y bound : number) :
  PrimFloat.leb x bound <> PrimFloat.leb y bound -> x <> y.
Proof. intros H E. apply H. now rewrite E. Qed.

(** The test [typeof Number.parseFloat(s) === "number"] of the last string
    case succeeds whatever the string. *)
Lemma typeof_parseFloat (s : jsstring) : typeof (VNumber (parseFloat s)) = TNumber.
Proof. reflexivity. Qed.

(* ================================================================== *)
(** * The strategy installed for a preferred-size declaration *)
(* ================================================================== *)

Section Strategies.

Variable ls : LayoutServiceRef.
Variable options : PaneViewOptions.

Lemma new_PaneView_layoutStrategy :
  layoutStrategy (new_PaneView ls options) = constructor_layoutStrategy ls options.
Proof. reflexivity. Qed.

(** A string ending in [%]: its leading part goes through [Number] and is
    divided by 100. *)
Lemma percent_strategy (s n : jsstring) :
  trim s = n ++ lit "%" ->
  constructor_layoutStrategy ls (with_preferredSize (VString s) options)
  = ProportionLayout (Number n / 100)%float ls.
Proof.
  intros Ht. unfold constructor_layoutStrategy. simpl. rewrite Ht.
  rewrite endsWith_app.
  change 1%nat with (List.length (lit "%")).
  now rewrite slice_0_neg_app.
Qed.

(** A string ending in [px]: its leading part goes through [Number] and is
    divided by 100 as well. *)
Lemma px_strategy (s n : jsstring) :
  trim s = n ++ lit "px" ->
  constructor_layoutStrategy ls (with_preferredSize (VString s) options)
  = PixelLayout (Number n / 100)%float.
Proof.
  intros Ht. unfold constructor_layoutStrategy. simpl. rewrite Ht.
  assert (Hpc : endsWith (n ++ lit "px") (lit "%") = false).
  { change (lit "px") with ([112%N] ++ [120%N]). rewrite app_assoc.
    apply endsWith_last_differs. discriminate. }
  rewrite Hpc, endsWith_app.
  change 2%nat with (List.length (lit "px")).
  now rewrite slice_0_neg_app.
Qed.

(** Any other string goes through [parseFloat]. *)
Lemma bare_strategy (s : jsstring) :
  endsWith (trim s) (lit "%") = false ->
  endsWith (trim s) (lit "px") = false ->
  constructor_layoutStrategy ls (with_preferredSize (VString s) options)
  = PixelLayout (parseFloat (trim s)).
Proof.
  intros Hpc Hpx. unfold constructor_layoutStrategy. simpl.
  now rewrite Hpc, Hpx.
Qed.

(** No string is given the [NullLayout] strategy. *)
Lemma string_strategy_not_null (s : jsstring) :
  constructor_layoutStrategy ls (with_preferredSize (VString s) options)
  <> NullLayout.
Proof.
  unfold constructor_layoutStrategy. simpl.
  destruct (endsWith (trim s) (lit "%")); [discriminate|].
  destruct (endsWith (trim s) (lit "px")); discriminate.
Qed.

(** The setter and the body of the constructor choose alike. *)
Lemma setter_matches_constructor (v : value) (this : PaneView) :
  layoutService this = ls ->
  layoutStrategy (set_preferredSize v this)
  = constructor_layoutStrategy ls (with_preferredSize v options).
Proof.
  intros Hls. unfold set_preferredSize, constructor_layoutStrategy. simpl.
  destruct v as [| |b|n|s]; try reflexivity.
  rewrite Hls.
  destruct (endsWith (trim s) (lit "%")); [reflexivity|].
  destruct (endsWith (trim s) (lit "px")); reflexivity.
Qed.

End Strategies.

(** Assignments never replace the layout service of a pane view. *)
Lemma assign_layoutService (a : assignment) (this : PaneView) :
  layoutService (assign a this) = layoutService this.
Proof. destruct a; reflexivity. Qed.

Lemma assign_all_layoutService (calls : list assignment) (this : PaneView) :
  layoutService (assign_all calls this) = layoutService this.
Proof.
  revert this. induction calls as [|a calls IH]; intros this; simpl.
  - reflexivity.
  - unfold assign_all in IH. rewrite IH. apply assign_layoutService.
Qed.

(* ================================================================== *)
(** * Preferred-size declarations *)
(* ================================================================== *)

(** C1, at the declaration ["120px"]: the pane view built with it, and the
    pane view it is assigned to, get the Fixed strategy of size 120 / 100,
    that is 1.2, and not the leading number 120 itself: the [px] case divides
    by 100 like the [%] case above it. *)
Theorem px_declaration_is_divided_by_100
    (ls : LayoutServiceRef) (options : PaneViewOptions) (h : Heap) :
  let declared := VString (lit "120px") in
  let built := new_PaneView ls (with_preferredSize declared options) in
  let assigned := set_preferredSize declared (new_PaneView ls options) in
  Number (lit "120") = 120%float /\
  layoutStrategy built = PixelLayout (120 / 100)%float /\
  layoutStrategy assigned = PixelLayout (120 / 100)%float /\
  preferredSize h built = Some (120 / 100)%float /\
  preferredSize h assigned = Some (120 / 100)%float /\
  preferredSize h built <> Some 120%float /\
  preferredSize h assigned <> Some 120%float.
Proof.
  intros declared built assigned.
  assert (Hn : Number (lit "120") = 120%float) by (vm_compute; reflexivity).
  assert (Hb : layoutStrategy built = PixelLayout (120 / 100)%float).
  { subst built declared. rewrite new_PaneView_layoutStrategy.
    pose proof (px_strategy ls options (lit "120px") (lit "120") eq_refl) as Hpx.
    rewrite Hpx. now rewrite Hn. }
  assert (Ha : layoutStrategy assigned = PixelLayout (120 / 100)%float).
  { unfold assigned.
    rewrite (setter_matches_constructor ls options declared
               (new_PaneView ls options) eq_refl).
    subst declared.
    pose proof (px_strategy ls options (lit "120px") (lit "120") eq_refl) as Hpx.
    rewrite Hpx. now rewrite Hn. }
  assert (Hne : Some (120 / 100)%float <> Some 120%float).
  { intros E.
    assert (E' : (120 / 100)%float = 120%float) by congruence.
    revert E'. apply number_neq with (bound := 2%float).
    vm_compute. discriminate. }
  unfold preferredSize. rewrite Hb, Ha. simpl.
  repeat split; auto.
Qed.

(** C2, at the declaration ["abc"], which is no number, has no [%] or [px]
    suffix and is no numeric string: the strategy is the Fixed strategy of
    size NaN and the [preferredSize] getter returns NaN, not [undefined];
    and no string at all is given the Unset strategy, since the test that
    guards it, [typeof Number.parseFloat(...) === "number"], always
    succeeds. *)
Theorem malformed_declaration_is_not_unset
    (ls : LayoutServiceRef) (options : PaneViewOptions) (h : Heap) :
  let declared := VString (lit "abc") in
  let built := new_PaneView ls (with_preferredSize declared options) in
  let assigned := set_preferredSize declared (new_PaneView ls options) in
  (endsWith (trim (lit "abc")) (lit "%") = false /\
   endsWith (trim (lit "abc")) (lit "px") = false /\
   is_nan (parseFloat (lit "abc")) = true /\
   is_nan (Number (lit "abc")) = true) /\
  layoutStrategy built = PixelLayout NaN /\
  layoutStrategy assigned = PixelLayout NaN /\
  preferredSize h built = Some NaN /\
  preferredSize h assigned = Some NaN /\
  preferredSize h built <> None /\
  preferredSize h assigned <> None /\
  (forall s : jsstring,
     layoutStrategy (new_PaneView ls (with_preferredSize (VString s) options))
     <> NullLayout /\
     layoutStrategy (set_preferredSize (VString s) (new_PaneView ls options))
     <> NullLayout).
Proof.
  intros declared built assigned.
  assert (Hb : layoutStrategy built = PixelLayout NaN).
  { subst built declared. rewrite new_PaneView_layoutStrategy.
    pose proof (bare_strategy ls options (lit "abc") eq_refl eq_refl) as Hbare.
    rewrite Hbare. reflexivity. }
  assert (Ha : layoutStrategy assigned = PixelLayout NaN).
  { unfold assigned.
    rewrite (setter_matches_constructor ls options declared
               (new_PaneView ls options) eq_refl).
    subst declared.
    pose proof (bare_strategy ls options (lit "abc") eq_refl eq_refl) as Hbare.
    rewrite Hbare. reflexivity. }
  assert (Hall : forall s : jsstring,
     layoutStrategy (new_PaneView ls (with_preferredSize (VString s) options))
     <> NullLayout /\
     layoutStrategy (set_preferredSize (VString s) (new_PaneView ls options))
     <> NullLayout).
  { intros s. split.
    - rewrite new_PaneView_layoutStrategy. apply string_strategy_not_null.
    - rewrite (setter_matches_constructor ls options (VString s)
                 (new_PaneView ls options) eq_refl).
      apply string_strategy_not_null. }
  unfold preferredSize. rewrite Hb, Ha.
  repeat split; try reflexivity; try discriminate; apply Hall.
Qed.

(** C3: a declaration whose trimmed text is [n] followed by [%] installs the
    Proportional strategy of fraction [Number(n) / 100], in the constructor
    and in the setter, and the preferred size read under a heap [h] is that
    fraction times the size the layout service holds in [h]. *)
Theorem percent_declaration_is_proportional
    (ls : LayoutServiceRef) (options : PaneViewOptions) (s n : jsstring) :
  trim s = n ++ lit "%" ->
  let built := new_PaneView ls (with_preferredSize (VString s) options) in
  let assigned := set_preferredSize (VString s) (new_PaneView ls options) in
  layoutStrategy built = ProportionLayout (Number n / 100)%float ls /\
  layoutStrategy assigned = ProportionLayout (Number n / 100)%float ls /\
  forall h : Heap,
    preferredSize h built = Some ((Number n / 100) * getSize (h ls))%float /\
    preferredSize h assigned = Some ((Number n / 100) * getSize (h ls))%float.
Proof.
  intros Ht built assigned.
  assert (Hb : layoutStrategy built = ProportionLayout (Number n / 100)%float ls).
  { unfold built. rewrite new_PaneView_layoutStrategy.
    now apply percent_strategy. }
  assert (Ha : layoutStrategy assigned = ProportionLayout (Number n / 100)%float ls).
  { unfold assigned.
    rewrite (setter_matches_constructor ls options (VString s)
               (new_PaneView ls options) eq_refl).
    now apply percent_strategy. }
  unfold preferredSize. rewrite Hb, Ha. simpl. auto.
Qed.

(** [" 50% "] in a container of 800, then of 300: 400, then 150. *)
Lemma percent_declaration_is_proportional_witness :
  let ls := 1%positive in
  let h800 : Heap := fun _ => {| _size := 800%float |} in
  let h300 := heap_update ls (setSize 300%float) h800 in
  let built := new_PaneView ls (with_preferredSize (VString (lit " 50% "))
                                  (bare_options 7%positive)) in
  preferredSize h800 built = Some 400%float /\
  preferredSize h300 built = Some 150%float.
Proof.
  intros ls h800 h300 built.
  destruct (percent_declaration_is_proportional ls (bare_options 7%positive)
              (lit " 50% ") (lit "50") eq_refl) as (_ & _ & H).
  split.
  - destruct (H h800) as [Hb _]. fold built in Hb. rewrite Hb. reflexivity.
  - destruct (H h300) as [Hb _]. fold built in Hb. rewrite Hb. reflexivity.
Defined.

(** C7: a declaration whose trimmed text ends neither in [%] nor in [px]
    installs the Fixed strategy of [Number.parseFloat] of that text, in the
    constructor and in the setter, and the preferred size is that number
    under every heap. *)
Theorem bare_numeric_declaration_is_fixed
    (ls : LayoutServiceRef) (options : PaneViewOptions) (s : jsstring) :
  endsWith (trim s) (lit "%") = false ->
  endsWith (trim s) (lit "px") = false ->
  let built := new_PaneView ls (with_preferredSize (VString s) options) in
  let assigned := set_preferredSize (VString s) (new_PaneView ls options) in
  layoutStrategy built = PixelLayout (parseFloat (trim s)) /\
  layoutStrategy assigned = PixelLayout (parseFloat (trim s)) /\
  forall h : Heap,
    preferredSize h built = Some (parseFloat (trim s)) /\
    preferredSize h assigned = Some (parseFloat (trim s)).
Proof.
  intros Hpc Hpx built assigned.
  assert (Hb : layoutStrategy built = PixelLayout (parseFloat (trim s))).
  { unfold built. rewrite new_PaneView_layoutStrategy.
    now apply bare_strategy. }
  assert (Ha : layoutStrategy assigned = PixelLayout (parseFloat (trim s))).
  { unfold assigned.
    rewrite (setter_matches_constructor ls options (VString s)
               (new_PaneView ls options) eq_refl).
    now apply bare_strategy. }
  unfold preferredSize. rewrite Hb, Ha. simpl. auto.
Qed.

(** ["42"] gives 42 and ["  3.5 "] gives 3.5. *)
Lemma bare_numeric_declaration_is_fixed_witness :
  let ls := 1%positive in
  let h : Heap := fun _ => {| _size := 800%float |} in
  preferredSize h (new_PaneView ls (with_preferredSize (VString (lit "42"))
                                      (bare_options 7%positive)))
  = Some 42%float /\
  preferredSize h (new_PaneView ls (with_preferredSize (VString (lit "  3.5 "))
                                      (bare_options 7%positive)))
  = Some 3.5%float.
Proof.
  intros ls h. split.
  - destruct (bare_numeric_declaration_is_fixed ls (bare_options 7%positive)
                (lit "42") eq_refl eq_refl) as (_ & _ & H).
    destruct (H h) as [Hb _]. rewrite Hb. reflexivity.
  - destruct (bare_numeric_declaration_is_fixed ls (bare_options 7%positive)
                (lit "  3.5 ") eq_refl eq_refl) as (_ & _ & H).
    destruct (H h) as [Hb _]. rewrite Hb. reflexivity.
Defined.

(** C6: the Fixed strategy returns its size under every heap, hence the same
    size before and after any change of any layout service, and the Unset
    strategy returns [undefined] under every heap; so do the pane views built
    with a number and with no [preferredSize]. *)
Theorem fixed_and_unset_ignore_the_layout_context
    (size : number) (h h' : Heap) (r : LayoutServiceRef) (n : number)
    (ls : LayoutServiceRef) (options : PaneViewOptions) :
  let fixed := new_PaneView ls (with_preferredSize (VNumber size) options) in
  let unset := new_PaneView ls (with_preferredSize VUndefined options) in
  getPreferredSize h (PixelLayout size) = Some size /\
  getPreferredSize h' (PixelLayout size) = getPreferredSize h (PixelLayout size) /\
  getPreferredSize (heap_update r (setSize n) h) (PixelLayout size) = Some size /\
  getPreferredSize h NullLayout = None /\
  getPreferredSize h' NullLayout = None /\
  getPreferredSize (heap_update r (setSize n) h) NullLayout = None /\
  layoutStrategy fixed = PixelLayout size /\
  layoutStrategy unset = NullLayout /\
  preferredSize h fixed = Some size /\
  preferredSize (heap_update r (setSize n) h) fixed = Some size /\
  preferredSize h unset = None /\
  preferredSize (heap_update r (setSize n) h) unset = None.
Proof. intros fixed unset. repeat split. Qed.

(** By contrast the Proportional strategy follows the layout service. *)
Remark proportional_follows_the_layout_context :
  let h : Heap := fun _ => {| _size := 800%float |} in
  let strategy := ProportionLayout (50 / 100)%float 1%positive in
  getPreferredSize h strategy = Some 400%float /\
  getPreferredSize (heap_update 1%positive (setSize 300%float) h) strategy
  = Some 150%float /\
  getPreferredSize (heap_update 2%positive (setSize 300%float) h) strategy
  = Some 400%float.
Proof. repeat split. Qed.

(** C9: whatever was assigned to a pane view since its construction with the
    layout service [ls], assigning [v] to its [preferredSize] installs the
    strategy the constructor installs for the option [preferredSize: v], and
    the two pane views report the same preferred size under every heap. *)
Theorem preferredSize_setter_agrees_with_constructor
    (ls : LayoutServiceRef) (options options' : PaneViewOptions)
    (calls : list assignment) (v : value) :
  let built := new_PaneView ls (with_preferredSize v options) in
  let assigned :=
    set_preferredSize v (assign_all calls (new_PaneView ls options')) in
  layoutStrategy assigned = layoutStrategy built /\
  forall h : Heap, preferredSize h assigned = preferredSize h built.
Proof.
  intros built assigned.
  assert (H : layoutStrategy assigned = layoutStrategy built).
  { unfold assigned, built. rewrite new_PaneView_layoutStrategy.
    apply setter_matches_constructor.
    now rewrite assign_all_layoutService. }
  split; [exact H|]. intros h. unfold preferredSize. now rewrite H.
Qed.

(* ================================================================== *)
(** * Bounds, priority and snap of a pane view *)
(* ================================================================== *)

Lemma assign_all_minimumSize (calls : list assignment) :
  forall (this : PaneView) (v : value),
    minimumSize this = number_or 30%float v ->
    minimumSize (assign_all calls this)
    = number_or 30%float
        (fold_left (fun v a => match a with AssignMinimumSize v' => v' | _ => v end)
                   calls v).
Proof.
  induction calls as [|a calls IH]; intros this v Hv; simpl.
  - exact Hv.
  - apply IH. destruct a; simpl; try exact Hv. now destruct v0.
Qed.

Lemma assign_all_maximumSize (calls : list assignment) :
  forall (this : PaneView) (v : value),
    maximumSize this = number_or POSITIVE_INFINITY v ->
    maximumSize (assign_all calls this)
    = number_or POSITIVE_INFINITY
        (fold_left (fun v a => match a with AssignMaximumSize v' => v' | _ => v end)
                   calls v).
Proof.
  induction calls as [|a calls IH]; intros this v Hv; simpl.
  - exact Hv.
  - apply IH. destruct a; simpl; try exact Hv. now destruct v0.
Qed.

(** C8 as stated fails: a pane view built with [maximumSize: 10] and no
    [minimumSize] has minimum 30 above its maximum 10, and one built with
    [minimumSize: -1] has a negative minimum. *)
Lemma bounds_are_not_validated :
  let narrow :=
    {| opt_element := 7%positive;
       opt_minimumSize := VUndefined; opt_maximumSize := VNumber 10%float;
       opt_priority := None; opt_preferredSize := VUndefined;
       opt_snap := VUndefined |} in
  let negative :=
    {| opt_element := 7%positive;
       opt_minimumSize := VNumber (-1)%float; opt_maximumSize := VUndefined;
       opt_priority := None; opt_preferredSize := VUndefined;
       opt_snap := VUndefined |} in
  ~ bounds_ordered (assign_all [] (new_PaneView 1%positive narrow)) /\
  ~ bounds_ordered (assign_all [] (new_PaneView 1%positive negative)) /\
  ~ (forall ls options calls,
       bounds_ordered (assign_all calls (new_PaneView ls options))).
Proof.
  intros narrow negative.
  assert (Hn : ~ bounds_ordered (assign_all [] (new_PaneView 1%positive narrow))).
  { intros [_ H]. vm_compute in H. discriminate. }
  repeat split.
  - exact Hn.
  - intros [H _]. vm_compute in H. discriminate.
  - intros H. exact (Hn (H 1%positive narrow [])).
Qed.

(** C8, amended: after construction and any sequence of assignments,
    [minimumSize] is the number last given for it, 30 when that was not a
    number, and [maximumSize] is the number last given for it, +Infinity
    when that was not a number, whatever these numbers are and in whatever
    order they lie; so [0 <= minimumSize <= maximumSize] holds exactly when
    the two numbers last given are so ordered. *)
Theorem bounds_follow_the_last_assignment
    (ls : LayoutServiceRef) (options : PaneViewOptions)
    (calls : list assignment) :
  let this := assign_all calls (new_PaneView ls options) in
  let lo := number_or 30%float (last_minimumSize options calls) in
  let hi := number_or POSITIVE_INFINITY (last_maximumSize options calls) in
  minimumSize this = lo /\ maximumSize this = hi /\
  (bounds_ordered this <-> le 0%float lo = true /\ le lo hi = true).
Proof.
  intros this lo hi.
  assert (Hmin : minimumSize this = lo).
  { apply assign_all_minimumSize. simpl. now destruct (opt_minimumSize options). }
  assert (Hmax : maximumSize this = hi).
  { apply assign_all_maximumSize. simpl. now destruct (opt_maximumSize options). }
  unfold bounds_ordered. rewrite Hmin, Hmax. tauto.
Qed.

(** Bounds left out at construction, then [minimumSize = 50] and
    [maximumSize = 200] assigned; and then [maximumSize = 10], which is kept
    as given, below the minimum. *)
Lemma bounds_follow_the_last_assignment_witness :
  let calls := [AssignMinimumSize (VNumber 50%float);
                AssignSnap (VBoolean true);
                AssignMaximumSize (VNumber 200%float)] in
  let this := assign_all calls (new_PaneView 1%positive (bare_options 7%positive)) in
  let that := assign_all (calls ++ [AssignMaximumSize (VNumber 10%float)])
                (new_PaneView 1%positive (bare_options 7%positive)) in
  (minimumSize this = 50%float /\ maximumSize this = 200%float /\
   bounds_ordered this) /\
  (minimumSize that = 50%float /\ maximumSize that = 10%float /\
   ~ bounds_ordered that).
Proof.
  intros calls this that.
  destruct (bounds_follow_the_last_assignment 1%positive
              (bare_options 7%positive) calls) as (Hmin & Hmax & Hordered).
  destruct (bounds_follow_the_last_assignment 1%positive
              (bare_options 7%positive)
              (calls ++ [AssignMaximumSize (VNumber 10%float)]))
    as (Hmin' & Hmax' & Hordered').
  split; (split; [|split]).
  - exact Hmin.
  - exact Hmax.
  - apply Hordered. split; reflexivity.
  - exact Hmin'.
  - exact Hmax'.
  - intros H. apply Hordered' in H. destruct H as [_ H]. discriminate H.
Defined.

(** C10: a [minimumSize] that is not a number becomes 30, a [maximumSize]
    that is not a number becomes +Infinity, a [snap] that is not a boolean
    becomes false and a missing [priority] becomes [Normal], at construction
    and at every later assignment. *)
Theorem omitted_properties_take_defaults
    (ls : LayoutServiceRef) (options : PaneViewOptions) (this : PaneView) :
  (typeof (opt_minimumSize options) <> TNumber ->
   minimumSize (new_PaneView ls options) = 30%float) /\
  (typeof (opt_maximumSize options) <> TNumber ->
   maximumSize (new_PaneView ls options) = POSITIVE_INFINITY) /\
  (typeof (opt_snap options) <> TBoolean ->
   snap (new_PaneView ls options) = false) /\
  (opt_priority options = None ->
   priority (new_PaneView ls options) = Some Normal) /\
  (forall v : value,
     typeof v <> TNumber ->
     minimumSize (set_minimumSize v this) = 30%float /\
     maximumSize (set_maximumSize v this) = POSITIVE_INFINITY) /\
  (forall v : value,
     typeof v <> TBoolean -> snap (set_snap v this) = false) /\
  priority (set_priority None this) = Some Normal.
Proof.
  split; [|split; [|split; [|split; [|split; [|split]]]]].
  - intros H. simpl. destruct (opt_minimumSize options); simpl in *; congruence.
  - intros H. simpl. destruct (opt_maximumSize options); simpl in *; congruence.
  - intros H. simpl. destruct (opt_snap options); simpl in *; congruence.
  - intros H. simpl. now rewrite H.
  - intros v H. destruct v; simpl in *; split; congruence.
  - intros v H. destruct v; simpl in *; congruence.
  - reflexivity.
Qed.

(** A pane view built without any optional property, then assigned
    [undefined] everywhere. *)
Lemma omitted_properties_take_defaults_witness :
  let built := new_PaneView 1%positive (bare_options 7%positive) in
  minimumSize built = 30%float /\
  maximumSize built = POSITIVE_INFINITY /\
  snap built = false /\
  priority built = Some Normal /\
  minimumSize (set_minimumSize VUndefined built) = 30%float /\
  maximumSize (set_maximumSize VNull built) = POSITIVE_INFINITY /\
  snap (set_snap VUndefined built) = false.
Proof.
  intros built.
  destruct (omitted_properties_take_defaults 1%positive (bare_options 7%positive) built)
    as (Hmin & Hmax & Hsnap & Hprio & Hset & Hsetsnap & _).
  assert (Hu : typeof VUndefined <> TNumber) by (simpl; discriminate).
  assert (Hn : typeof VNull <> TNumber) by (simpl; discriminate).
  assert (Hb : typeof VUndefined <> TBoolean) by (simpl; discriminate).
  split; [apply Hmin; exact Hu|].
  split; [apply Hmax; exact Hu|].
  split; [apply Hsnap; exact Hb|].
  split; [apply Hprio; reflexivity|].
  split; [apply (Hset VUndefined Hu)|].
  split; [apply (Hset VNull Hn)|].
  apply (Hsetsnap VUndefined Hb).
Defined.

(* ================================================================== *)
(** * The sash size *)
(* ================================================================== *)





(** [lodash.clamp] hands NaN back. *)
Remark clamp_NaN (lower upper : number) : clamp NaN lower upper = NaN.
Proof. unfold clamp, baseClamp. reflexivity. Qed.

(** C5 as stated fails at NaN, which is a number: [setSashSize(NaN)] writes
    [NaNpx] to both properties and NaN to the global sash size, and NaN
    lies in neither interval. *)
Lemma setSashSize_NaN_is_not_clamped :
  let g0 := {| style := fun _ => None; globalSashSize := 4%float |} in
  let g' := setSashSize NaN g0 in
  style g' "--sash-size" = Some (Px NaN) /\
  style g' "--sash-hover-size" = Some (Px NaN) /\
  globalSashSize g' = NaN /\
  ~ (le 4 (globalSashSize g') = true /\ le (globalSashSize g') 20 = true) /\
  ~ (forall (n : number) (g : Globals),
       le 4 (globalSashSize (setSashSize n g)) = true /\
       le (globalSashSize (setSashSize n g)) 20 = true).
Proof.
  intros g0 g'.
  assert (Hout : ~ (le 4 (globalSashSize g') = true
                    /\ le (globalSashSize g') 20 = true)).
  { intros [H _]. vm_compute in H. discriminate H. }
  split; [reflexivity|]. split; [reflexivity|]. split; [reflexivity|].
  split; [exact Hout|].
  intros H. exact (Hout (H NaN g0)).
Qed.



(* ================================================================== *)
(** * The sum of the pane sizes under the engine's operations *)
(* ================================================================== *)

Module SplitViewFacts.

Import SplitView.
Local Open Scope Z_scope.

(** ** Sums over runs of panes *)










Lemma nth_error_split (ps : list Pane) (i : nat) (p : Pane) :
  nth_error ps i = Some p -> ps = firstn i ps ++ p :: skipn (S i) ps.
Proof.
  revert i. induction ps as [|q ps IH]; intros [|i] H; simpl in *; try discriminate.
  - now inversion H.
  - f_equal. now apply IH.
Qed.


(** ** Panes within their bounds *)











(** ** The cascade *)

Section Cascade.

Variable eligible : Pane -> bool.







End Cascade.



(** ** The cascade in priority order *)





(** ** The operations *)









Lemma freeCount_le_length (ss : list slot) : (freeCount ss <= List.length ss)%nat.
Proof. unfold freeCount. apply filter_length_le. Qed.



(** Constraining never frees a pane, and holds none exactly when every free
    pane can take the share. *)
Lemma constrain_freeCount (x : Z) (ss : list slot) :
  (freeCount (map (constrain x) ss) <= freeCount ss)%nat /\
  (freeCount (map (constrain x) ss) = freeCount ss -> Forall (canTake x) ss).
Proof.
  unfold freeCount.
  induction ss as [|[p [b|]] ss [IH1 IH2]]; cbn [map filter constrain snd List.length].
  - split; [lia | constructor].
  - split; [exact IH1|]. intros H. constructor; [exact I | auto].
  - destruct (x <? minimumSize p) eqn:Hlo; cbn [snd filter List.length].
    + split; [lia|]. intros H. lia.
    + apply Z.ltb_ge in Hlo.
      destruct (maximumSize p) as [m|] eqn:Hmax.
      * destruct (m <? x) eqn:Hhi; cbn [snd filter List.length].
        -- split; [lia|]. intros H. lia.
        -- apply Z.ltb_ge in Hhi. split; [lia|]. intros H.
           constructor; [|apply IH2; lia].
           unfold canTake, le_bound. rewrite Hmax. lia.
      * cbn [snd filter List.length]. split; [lia|]. intros H.
        constructor; [|apply IH2; lia].
        unfold canTake, le_bound. rewrite Hmax. split; [lia | exact I].
Qed.

(** The iteration reaches its fixpoint within as many rounds as there are
    free panes, plus the one that finds nothing left to hold. *)
Lemma settle_stable (whole : Z) (fuel : nat) :
  forall ss, (freeCount ss <= fuel)%nat -> stable whole (settle (S fuel) whole ss).
Proof.
  induction fuel as [|fuel IH]; intros ss Hfuel; cbn [settle].
  - destruct (_ =? _)%nat eqn:E.
    + apply Nat.eqb_eq in E. exact E.
    + apply Nat.eqb_neq in E.
      destruct (constrain_freeCount (equalShare whole ss) ss) as [Hle _]. lia.
  - destruct (_ =? _)%nat eqn:E.
    + apply Nat.eqb_eq in E. exact E.
    + apply Nat.eqb_neq in E.
      destruct (constrain_freeCount (equalShare whole ss) ss) as [Hle _].
      apply IH. lia.
Qed.

(** [distributeViewSizes] stops at the fixpoint, where every pane still free
    can take the equal share within its bounds. *)
Lemma settled_is_fixpoint (e : Engine) :
  stable (containerSize e) (settled e) /\
  Forall (canTake (equalShare (containerSize e) (settled e))) (settled e).
Proof.
  assert (H : stable (containerSize e) (settled e)).
  { unfold settled. apply settle_stable.
    etransitivity; [apply freeCount_le_length|]. now rewrite length_map. }
  split; [exact H|].
  now apply (constrain_freeCount (equalShare (containerSize e) (settled e))).
Qed.














(** ** The examples of the specification *)

(** "[distributeViewSizes()] on 3 panes with bounds [[0, inf]] and container
    size 300 yields [[100,100,100]]; with one pane bounded to [[0,50]],
    yields [[50,125,125]]." *)
Example distribution_fairness :
  map currentSize
      (panes (distributeViewSizes
                (engine [pane 0 None 0; pane 0 None 0; pane 0 None 0] 300 false)))
  = [100; 100; 100] /\
  map currentSize
      (panes (distributeViewSizes
                (engine [pane 0 (Some 50) 0; pane 0 None 0; pane 0 None 0] 300 false)))
  = [50; 125; 125].
Proof. split; reflexivity. Qed.

(** "two panes [[50,50]] in a 100-wide container; [layout(200)] yields
    [[100,100]]." *)
Example container_growth_with_proportional_layout :
  map currentSize
      (panes (layout 200 (engine [pane 0 None 50; pane 0 None 50] 100 true)))
  = [100; 100].
Proof. reflexivity. Qed.

(** "[resizeViews(sizes)] followed immediately by reading all pane sizes
    returns exactly [sizes] (given a valid, sum-matching input)." *)
Example resizeViews_round_trip :
  match resizeViews [20; 50; 30]
          (engine [pane 0 None 40; pane 0 None 30; pane 0 None 30] 100 false) with
  | inr e => map currentSize (panes e) = [20; 50; 30]
  | inl _ => False
  end.
Proof. reflexivity. Qed.

Lemma cascade_nothing (eligible : Pane -> bool) (ps : list Pane) :
  Forall withinBounds ps -> cascade eligible 0 ps = (ps, 0).
Proof.
  induction 1 as [|p ps Hp _ IH]; cbn [cascade]; [reflexivity|].
  assert (Hsame : clampSize p (currentSize p + 0) = currentSize p).
  { destruct Hp as [H1 H2]. unfold clampSize, le_bound in *.
    destruct (maximumSize p); lia. }
  destruct (eligible p).
  - rewrite Hsame, Z.sub_diag, Z.sub_0_r, IH. now destruct p.
  - now rewrite IH.
Qed.

Lemma proportionalShares_nothing (whole : Z) (ps : list Pane) :
  Forall withinBounds ps -> proportionalShares 0 whole ps = ps.
Proof.
  unfold proportionalShares.
  induction 1 as [|p ps Hp _ IH]; cbn [map]; [reflexivity|].
  rewrite IH. f_equal.
  rewrite Z.mul_0_l, Zdiv_0_l, Z.add_0_r.
  destruct Hp as [H1 H2]. unfold clampSize, le_bound in *.
  destruct p as [lo [hi|] pr sn cur]; unfold resized; simpl in *; f_equal; lia.
Qed.

(** "calling [layout(containerSize)] twice with the same value produces no
    change on the second call": a layout at the current container size
    leaves panes within their bounds as they are. *)
Lemma layout_idempotence (e : Engine) :
  Forall withinBounds (panes e) -> layout (containerSize e) e = e.
Proof.
  intros Hw. unfold layout. rewrite Z.sub_diag.
  rewrite (proportionalShares_nothing (containerSize e) (panes e) Hw).
  assert (Hcascade : cascadeByPriority 0 (panes e) = (panes e, 0)).
  { unfold cascadeByPriority. now rewrite !cascade_nothing. }
  rewrite Z.sub_diag, Z.sub_0_r, Hcascade.
  destruct e as [o ps c b]. destruct b; reflexivity.
Qed.

(** ** The sum invariant *)


(** None of the provisos of the amended statement below can be dropped:
    a pane resized beyond what the other panes can give up, the only pane
    removed, an even distribution that holds every pane at a bound, a pane
    removed from sizes that were only within the tolerance, and a layout of
    panes one of which is outside its bounds, all leave the sum away from the
    container size. *)
Lemma the_provisos_matter :
  (let e := engine [pane 0 None 50; pane 0 None 50] 100 false in
   settledState e /\
   perform (ResizeView 0 500) e
   = inr (engine [pane 0 None 500; pane 0 None 0] 100 false) /\
   ~ sumInvariant (engine [pane 0 None 500; pane 0 None 0] 100 false)) /\
  (let e := engine [pane 0 None 100] 100 false in
   settledState e /\
   perform (RemoveView 0) e = inr (engine [] 100 false) /\
   ~ sumInvariant (engine [] 100 false)) /\
  (let e := engine [pane 60 None 100] 100 false in
   settledState e /\
   perform (AddView (pane 0 (Some 10) 0) Distribute None) e
   = inr (engine [pane 60 None 60; pane 0 (Some 10) 10] 100 false) /\
   ~ sumInvariant (engine [pane 60 None 60; pane 0 (Some 10) 10] 100 false)) /\
  (let e := engine [pane 0 None 34; pane 0 None 34; pane 0 None 35] 100 false in
   resizeViews [34; 34; 35]
               (engine [pane 0 None 34; pane 0 None 33; pane 0 None 33] 100 false)
   = inr e /\
   sumInvariant e /\
   perform (RemoveView 0) e
   = inr (engine [pane 0 None 50; pane 0 None 53] 100 false) /\
   ~ sumInvariant (engine [pane 0 None 50; pane 0 None 53] 100 false)) /\
  (let e := engine [pane 0 None 50; pane 0 (Some 30) 50] 100 false in
   total (panes e) = containerSize e /\
   absorbable (Layout 120) e /\
   perform (Layout 120) e
   = inr (engine [pane 0 None 70; pane 0 (Some 30) 30] 120 false) /\
   ~ sumInvariant (engine [pane 0 None 70; pane 0 (Some 30) 30] 120 false)).
Proof.
  repeat match goal with
         | |- _ /\ _ => split
         | |- let _ := _ in _ => intro
         | |- settledState _ =>
             split; [repeat constructor; simpl; lia | reflexivity]
         | |- _ = inr _ => reflexivity
         | |- total _ = _ => reflexivity
         | |- absorbable _ _ => simpl; split; [lia | exact I]
         | |- ~ sumInvariant _ => unfold sumInvariant; simpl; lia
         | |- sumInvariant _ => unfold sumInvariant; simpl; lia
         end.
Qed.



End SplitViewFacts.

(* ================================================================== *)
(** * Platform detection *)
(* ================================================================== *)

Module PlatformFacts.

Import Platform.

Lemma stripPrefix_spec (p : jsstring) :
  forall s r, stripPrefix p s = Some r <-> s = p ++ r.
Proof.
  induction p as [|a p IH]; intros s r; simpl.
  - split; intros H; congruence.
  - destruct s as [|b s]; [split; discriminate|].
    destruct (N.eqb_spec a b) as [->|Hne].
    + rewrite IH. split; intros H; congruence.
    + split; [discriminate | intros H; congruence].
Qed.

Lemma indexOf_cases (s needle : jsstring) :
  (indexOf s needle = -1 \/ 0 <= indexOf s needle)%Z.
Proof.
  induction s as [|c s IH]; simpl.
  - destruct (stripPrefix needle []); lia.
  - destruct (stripPrefix needle (c :: s)); [lia|].
    destruct (indexOf s needle <? 0)%Z eqn:E; [lia|].
    apply Z.ltb_ge in E. lia.
Qed.

Lemma indexOf_unfold (s needle : jsstring) :
  indexOf s needle
  = match stripPrefix needle s with
    | Some _ => 0%Z
    | None =>
        match s with
        | [] => (-1)%Z
        | _ :: s' =>
            let r := indexOf s' needle in
            if (r <? 0)%Z then (-1)%Z else (r + 1)%Z
        end
    end.
Proof. destruct s; reflexivity. Qed.

(** [indexOf] finds a needle exactly when the needle occurs. *)
Lemma indexOf_occurs (needle : string) (s : jsstring) :
  (0 <=? indexOf s (lit needle))%Z = true <-> occurs needle s.
Proof.
  unfold occurs. rewrite Z.leb_le. split.
  - induction s as [|c s IH]; simpl.
    + destruct (stripPrefix (lit needle) []) as [r|] eqn:E; [|lia].
      intros _. apply stripPrefix_spec in E. now exists [], r.
    + destruct (stripPrefix (lit needle) (c :: s)) as [r|] eqn:E.
      * intros _. apply stripPrefix_spec in E. now exists [], r.
      * destruct (indexOf s (lit needle) <? 0)%Z eqn:Hr; [lia|].
        apply Z.ltb_ge in Hr. intros _.
        destruct (IH Hr) as (before & after & ->).
        now exists (c :: before), after.
  - intros (before & after & ->).
    induction before as [|c before IH].
    + simpl app. rewrite indexOf_unfold.
      now rewrite (proj2 (stripPrefix_spec (lit needle) _ after) eq_refl).
    + simpl. destruct (stripPrefix (lit needle) _); [lia|].
      destruct (indexOf _ _ <? 0)%Z eqn:Hr; [apply Z.ltb_lt in Hr; lia | lia].
Qed.

Lemma contains_occurs (needle : string) (s : jsstring) :
  contains s needle = true <-> occurs needle s.
Proof. apply indexOf_occurs. Qed.

Lemma indexOf_absent (needle : string) (s : jsstring) :
  (indexOf s (lit needle) <? 0)%Z = true <-> ~ occurs needle s.
Proof.
  rewrite <- indexOf_occurs, Z.ltb_lt, Z.leb_le. lia.
Qed.

(** A number above zero is truthy. *)
Lemma positive_is_truthy (n : number) :
  PrimFloat.ltb 0 n = true -> ToBoolean (VNumber n) = true.
Proof.
  intros H. unfold ToBoolean.
  rewrite ltb_spec in H. rewrite !eqb_spec.
  change (Prim2SF 0) with (S754_zero false) in *.
  destruct (Prim2SF n) as [s|s| |s m e]; simpl in *; try discriminate.
  - destruct s; [discriminate | reflexivity].
  - destruct s; [discriminate|].
    unfold SFeqb, SFcompare. simpl.
    now rewrite Z.compare_refl, Pos.compare_cont_refl.
Qed.

(** X1: [isIOS] holds exactly when the user agent names a Macintosh, an
    iPad or an iPhone and the navigator reports more than zero touch
    points; without a navigator it does not hold. *)
Theorem isIOS_iff (navigator : INavigator) :
  isIOS (detect None) = false /\
  (isIOS (detect (Some navigator)) = true <->
   (occurs "Macintosh" (userAgent navigator)
    \/ occurs "iPad" (userAgent navigator)
    \/ occurs "iPhone" (userAgent navigator))
   /\ exists n, maxTouchPoints navigator = Some n /\ PrimFloat.ltb 0 n = true).
Proof.
  split; [reflexivity|]. cbn [detect isIOS].
  rewrite andb_true_iff, !orb_true_iff, !contains_occurs.
  split; intros [Hua Htouch]; (split; [tauto|]).
  - destruct (maxTouchPoints navigator) as [n|]; [|discriminate].
    apply andb_true_iff in Htouch as [_ Hpos]. now exists n.
  - destruct Htouch as (n & -> & Hpos).
    now rewrite (positive_is_truthy n Hpos), Hpos.
Qed.

(** X2: [isWebkit] holds exactly when the user agent names WebKit and does
    not name Chrome, and [isApple] exactly when it names a Macintosh or
    [isIOS] holds; in particular every iOS device is an Apple device. *)
Theorem isWebkit_isApple_iff (navigator : INavigator) :
  let detected := detect (Some navigator) in
  (isWebkit detected = true <->
   occurs "WebKit" (userAgent navigator) /\ ~ occurs "Chrome" (userAgent navigator)) /\
  (isMacintosh detected = true <-> occurs "Macintosh" (userAgent navigator)) /\
  (isApple detected = true <->
   occurs "Macintosh" (userAgent navigator) \/ isIOS detected = true) /\
  (isIOS detected = true -> isApple detected = true).
Proof.
  simpl. repeat split.
  - apply andb_true_iff in H as [H _]. now apply contains_occurs.
  - apply andb_true_iff in H as [_ H]. now apply indexOf_absent.
  - intros [H1 H2]. apply andb_true_iff. split.
    + now apply contains_occurs.
    + now apply indexOf_absent.
  - apply contains_occurs.
  - apply contains_occurs.
  - rewrite orb_true_iff, contains_occurs. tauto.
  - rewrite orb_true_iff, contains_occurs. tauto.
  - intros H. rewrite H. reflexivity.
Qed.

End PlatformFacts.

(* ================================================================== *)
(** * The component *)
(* ================================================================== *)

Module AllotmentFacts.

Import Allotment.
Local Open Scope Z_scope.

(** ** The views the component creates *)

Lemma constructor_layoutStrategy_preferredSize
    (ls : LayoutServiceRef) (options : PaneViewOptions) (v : value) :
  opt_preferredSize options = v ->
  constructor_layoutStrategy ls options
  = constructor_layoutStrategy ls (with_preferredSize v options).
Proof. intros <-. reflexivity. Qed.

Lemma created_strategy (ls : LayoutServiceRef) (props : AllotmentProps)
    (svProps : PaneProps) (element : HTMLElement) :
  layoutStrategy (createPaneView ls props (Some svProps) element)
  = if ToBoolean (p_preferredSize svProps)
    then constructor_layoutStrategy ls
           (with_preferredSize (p_preferredSize svProps) (bare_options element))
    else NullLayout.
Proof.
  change (layoutStrategy (createPaneView ls props (Some svProps) element))
    with (constructor_layoutStrategy ls
            (paneViewOptions props (Some svProps) element)).
  unfold constructor_layoutStrategy, paneViewOptions.
  cbn [opt_preferredSize with_preferredSize].
  now destruct (ToBoolean (p_preferredSize svProps)).
Qed.

(** X3: a pane whose declared [preferredSize] is falsy ([undefined], [0],
    [NaN], the empty string) is given a view without a preferred size, and
    a pane that declares no props at all likewise; every other declared
    number or string gives the view the strategy the [PaneView] constructor
    installs for it, which is never the Unset one.  (The declaration is
    taken not to be a boolean.) *)
Theorem created_view_has_preferred_size_iff_truthy
    (ls : LayoutServiceRef) (props : AllotmentProps) (svProps : PaneProps)
    (element : HTMLElement) :
  typeof (p_preferredSize svProps) <> TBoolean ->
  let view := createPaneView ls props (Some svProps) element in
  layoutStrategy (createPaneView ls props None element) = NullLayout /\
  (layoutStrategy view = NullLayout <->
   ToBoolean (p_preferredSize svProps) = false) /\
  (ToBoolean (p_preferredSize svProps) = true ->
   layoutStrategy view
   = layoutStrategy
       (new_PaneView ls (with_preferredSize (p_preferredSize svProps)
                           (bare_options element))) /\
   forall h, preferredSize h view <> None).
Proof.
  intros Htype view. split; [reflexivity|].
  assert (Hs : layoutStrategy view
               = constructor_layoutStrategy ls (paneViewOptions props (Some svProps) element))
    by reflexivity.
  destruct (ToBoolean (p_preferredSize svProps)) eqn:Ht.
  - assert (Hopt : opt_preferredSize (paneViewOptions props (Some svProps) element)
                   = p_preferredSize svProps).
    { unfold paneViewOptions. simpl. now rewrite Ht. }
    assert (Hnn : layoutStrategy view <> NullLayout).
    { rewrite Hs, (constructor_layoutStrategy_preferredSize _ _ _ Hopt).
      destruct (p_preferredSize svProps) as [| |b|n|s] eqn:Hv; try discriminate.
      - now elim Htype.
      - apply string_strategy_not_null. }
    split; [split; [contradiction | discriminate]|].
    intros _. split.
    + rewrite Hs, (constructor_layoutStrategy_preferredSize _ _ _ Hopt).
      reflexivity.
    + intros h. unfold preferredSize.
      destruct (layoutStrategy view); [discriminate | discriminate | contradiction].
  - assert (Hopt : opt_preferredSize (paneViewOptions props (Some svProps) element)
                   = VUndefined).
    { unfold paneViewOptions. simpl. now rewrite Ht. }
    split; [|discriminate].
    split; [reflexivity|]. intros _.
    rewrite Hs. unfold constructor_layoutStrategy. now rewrite Hopt.
Qed.

(** [preferredSize: 0] is dropped, [preferredSize: "0"] is kept. *)
Lemma created_view_has_preferred_size_iff_truthy_witness :
  let declare v :=
    {| p_preferredSize := v; p_priority := None; p_visible := VUndefined;
       p_maxSize := VUndefined; p_minSize := VUndefined; p_snap := VUndefined |} in
  let props :=
    {| a_defaultSizes := None; a_proportionalLayout := VUndefined;
       a_vertical := VUndefined; a_onReset := false; a_maxSize := VUndefined;
       a_minSize := VUndefined; a_snap := VUndefined |} in
  layoutStrategy (createPaneView 1%positive props (Some (declare (VNumber 0%float)))
                    7%positive) = NullLayout /\
  layoutStrategy (createPaneView 1%positive props (Some (declare (VString (lit "0"))))
                    7%positive) <> NullLayout.
Proof.
  intros declare props. split.
  - apply (created_view_has_preferred_size_iff_truthy 1%positive props
             (declare (VNumber 0%float)) 7%positive); [discriminate | reflexivity].
  - intros H.
    apply (created_view_has_preferred_size_iff_truthy 1%positive props
             (declare (VString (lit "0"))) 7%positive) in H;
      [discriminate | discriminate].
Defined.

(** ** The reset of a sash *)

(** X4: the listener of ["sashreset"] makes exactly one call: [onReset]
    when the host gave one, and otherwise a [resizeView] of the pane before
    the sash when its view has a preferred size, else of the pane after the
    sash when that one has, else [distributeViewSizes]. *)
Theorem onSashReset_makes_one_call
    (props : AllotmentProps) (h : Heap) (views : list PaneView) (index : Z) :
  let preferred (i : Z) : option number :=
    match item views i with
    | Some view => preferredSize h view
    | None => None
    end in
  onSashReset props h views index
  = [ if a_onReset props then CallOnReset
      else
        match preferred index, preferred (index + 1) with
        | Some size, _ => CallResizeView index (Math_round size)
        | None, Some size => CallResizeView (index + 1) (Math_round size)
        | None, None => CallDistributeViewSizes
        end ].
Proof.
  intros preferred. unfold onSashReset, resizeToPreferredSize, preferred.
  destruct (a_onReset props); [reflexivity|].
  destruct (item views index) as [v|]; [destruct (preferredSize h v)|];
    try reflexivity;
    (destruct (item views (index + 1)) as [v'|];
     [destruct (preferredSize h v')|]; reflexivity).
Qed.

(** X5: when the host gave no [onReset], resetting the sash after a pane
    whose view the component created from a declared non-empty string never
    distributes the sizes: whatever the string, the pane is resized, to the
    rounded number its strategy returns. *)
Theorem reset_of_a_declared_string_resizes
    (ls : LayoutServiceRef) (props : AllotmentProps) (svProps : PaneProps)
    (element : HTMLElement) (s : jsstring) (h : Heap)
    (views : list PaneView) (index : Z) :
  a_onReset props = false ->
  p_preferredSize svProps = VString s ->
  s <> [] ->
  item views index = Some (createPaneView ls props (Some svProps) element) ->
  exists size,
    preferredSize h (createPaneView ls props (Some svProps) element) = Some size /\
    onSashReset props h views index = [CallResizeView index (Math_round size)].
Proof.
  intros Hreset Hs Hne Hitem.
  destruct (preferredSize h (createPaneView ls props (Some svProps) element))
    as [size|] eqn:Hp.
  - exists size. split; [reflexivity|].
    unfold onSashReset, resizeToPreferredSize.
    now rewrite Hreset, Hitem, Hp.
  - exfalso. unfold preferredSize in Hp.
    rewrite created_strategy, Hs in Hp.
    destruct s as [|c s]; [contradiction|]. cbn [ToBoolean] in Hp.
    pose proof (string_strategy_not_null ls (bare_options element) (c :: s))
      as Hstrategy.
    destruct (constructor_layoutStrategy ls
                (with_preferredSize (VString (c :: s)) (bare_options element)));
      [discriminate | discriminate | contradiction].
Qed.

(** The declaration ["abc"] resets to [resizeView(0, NaN)]. *)
Lemma reset_of_a_declared_string_resizes_witness :
  let svProps :=
    {| p_preferredSize := VString (lit "abc"); p_priority := None;
       p_visible := VUndefined; p_maxSize := VUndefined; p_minSize := VUndefined;
       p_snap := VUndefined |} in
  let props :=
    {| a_defaultSizes := None; a_proportionalLayout := VUndefined;
       a_vertical := VUndefined; a_onReset := false; a_maxSize := VUndefined;
       a_minSize := VUndefined; a_snap := VUndefined |} in
  let h : Heap := fun _ => {| _size := 800%float |} in
  let view := createPaneView 1%positive props (Some svProps) 7%positive in
  exists size,
    preferredSize h view = Some size /\
    onSashReset props h [view] 0 = [CallResizeView 0 (Math_round size)].
Proof.
  intros svProps props h view.
  apply (reset_of_a_declared_string_resizes 1%positive props svProps 7%positive
           (lit "abc") h [view] 0); try reflexivity. discriminate.
Defined.

(** ** The resize observer *)

(** X6: the callback of the resize observer does nothing at all when the
    width or the height is falsy (zero or NaN), whichever of the two is the
    layout axis; otherwise it lays the engine out at the extent along the
    axis (the height when [vertical] is truthy, else the width), stores that
    extent in the layout service, so that a Proportional strategy of
    this service then returns its fraction of it, and marks the dimensions
    as initialised. *)
Theorem onResize_spec
    (ls : LayoutServiceRef) (props : AllotmentProps) (width height : number)
    (h : Heap) :
  let size := if ToBoolean (a_vertical props) then height else width in
  (ToBoolean (VNumber width) = false \/ ToBoolean (VNumber height) = false ->
   onResize ls props width height h = ([], h, false)) /\
  (ToBoolean (VNumber width) = true -> ToBoolean (VNumber height) = true ->
   exists h',
     onResize ls props width height h = ([CallLayout (Some size)], h', true) /\
     getSize (h' ls) = size /\
     (forall r, r <> ls -> h' r = h r) /\
     (forall proportion,
        getPreferredSize h' (ProportionLayout proportion ls)
        = Some (proportion * size)%float)).
Proof.
  intros size. unfold onResize. split.
  - intros [H|H]; rewrite H; [reflexivity | now rewrite andb_false_r].
  - intros Hw Hh. rewrite Hw, Hh. simpl andb. cbv iota. fold size.
    exists (heap_update ls (setSize size) h).
    assert (Hls : getSize (heap_update ls (setSize size) h ls) = size).
    { unfold heap_update. now rewrite Pos.eqb_refl. }
    repeat split.
    + exact Hls.
    + intros r Hr. unfold heap_update.
      apply Pos.eqb_neq in Hr. now rewrite Hr.
    + intros proportion. simpl. now rewrite Hls.
Qed.

(** A horizontal component 800 wide: of no height, and 600 high. *)
Lemma onResize_spec_witness :
  let props :=
    {| a_defaultSizes := None; a_proportionalLayout := VUndefined;
       a_vertical := VUndefined; a_onReset := false; a_maxSize := VUndefined;
       a_minSize := VUndefined; a_snap := VUndefined |} in
  let h : Heap := fun _ => {| _size := 100%float |} in
  onResize 1%positive props 800%float 0%float h = ([], h, false) /\
  exists h',
    onResize 1%positive props 800%float 600%float h
    = ([CallLayout (Some 800%float)], h', true) /\
    getPreferredSize h' (ProportionLayout (50 / 100)%float 1%positive)
    = Some 400%float.
Proof.
  intros props h.
  destruct (onResize_spec 1%positive props 800%float 0%float h) as [Hzero _].
  destruct (onResize_spec 1%positive props 800%float 600%float h) as [_ Hsome].
  split; [apply Hzero; right; reflexivity|].
  destruct (Hsome eq_refl eq_refl) as (h' & Hr & _ & _ & Hp).
  exists h'. split; [exact Hr|]. rewrite Hp. reflexivity.
Defined.

(** ** The sash size on mount *)

(** X7: on mount the component sets the sash size to 20 and the hover size
    to 8 on a touch device whose user agent names a Macintosh, an iPad or an
    iPhone, and leaves the global sash configuration alone everywhere
    else. *)
Theorem onMountSash_spec (navigator : option Platform.INavigator) (g : Globals) :
  let g' := onMountSash (Platform.detect navigator) g in
  (Platform.isIOS (Platform.detect navigator) = true ->
   globalSashSize g' = 20%float /\
   style g' "--sash-size" = Some (Px 20%float) /\
   style g' "--sash-hover-size" = Some (Px 8%float)) /\
  (Platform.isIOS (Platform.detect navigator) = false -> g' = g).
Proof.
  intros g'. unfold g', onMountSash.
  split; intros H; rewrite H; [|reflexivity].
  repeat split.
Qed.

(** ** Arrays *)

Lemma splice_delete {A : Type} (l1 l2 : list A) (x : A) :
  splice (Z.of_nat (List.length l1)) 1 [] (l1 ++ x :: l2) = l1 ++ l2.
Proof.
  unfold splice. rewrite length_app. cbn [List.length].
  replace (Z.of_nat (List.length l1) <? 0) with false
    by (symmetry; apply Z.ltb_ge; lia).
  rewrite (Z.min_l (Z.of_nat (List.length l1))) by lia.
  rewrite Z.max_l by lia. rewrite Z.min_l by lia.
  rewrite Nat2Z.id.
  replace (Z.to_nat (Z.of_nat (List.length l1) + 1)) with (S (List.length l1)) by lia.
  rewrite firstn_app, Nat.sub_diag, firstn_all. cbn [firstn app].
  rewrite app_nil_r.
  replace (S (List.length l1)) with (List.length l1 + 1)%nat by lia.
  rewrite skipn_app, Nat.add_sub_swap, Nat.sub_diag by lia.
  rewrite skipn_all2 by lia. reflexivity.
Qed.

Lemma splice_insert {A : Type} (l1 l2 : list A) (x : A) :
  splice (Z.of_nat (List.length l1)) 0 [x] (l1 ++ l2) = l1 ++ x :: l2.
Proof.
  unfold splice. rewrite length_app.
  replace (Z.of_nat (List.length l1) <? 0) with false
    by (symmetry; apply Z.ltb_ge; lia).
  rewrite (Z.min_l (Z.of_nat (List.length l1))) by lia.
  rewrite Z.max_l by lia. rewrite Z.min_l by lia.
  rewrite Z.add_0_r, Nat2Z.id.
  rewrite firstn_app, Nat.sub_diag, firstn_all. cbn [firstn].
  rewrite app_nil_r.
  rewrite skipn_app, Nat.sub_diag, skipn_all. reflexivity.
Qed.

Lemma splice_length_insert {A : Type} (index : Z) (x : A) (l : list A) :
  List.length (splice index 0 [x] l) = S (List.length l).
Proof.
  unfold splice.
  set (start := if index <? 0 then _ else _).
  rewrite Z.max_l by lia.
  assert (Hs : 0 <= start <= Z.of_nat (List.length l)).
  { unfold start. destruct (index <? 0) eqn:E; [lia|].
    apply Z.ltb_ge in E. lia. }
  rewrite Z.min_l by lia. rewrite Z.add_0_r.
  change (firstn (Z.to_nat start) l ++ [x] ++ skipn (Z.to_nat start) l)
    with (firstn (Z.to_nat start) l ++ x :: skipn (Z.to_nat start) l).
  rewrite length_app. cbn [List.length].
  rewrite <- (firstn_skipn (Z.to_nat start) l) at 3.
  rewrite length_app. lia.
Qed.

Lemma splice_insert_Permutation {A : Type} (index : Z) (x : A) (l : list A) :
  Permutation (splice index 0 [x] l) (x :: l).
Proof.
  unfold splice.
  set (start := if index <? 0 then _ else _).
  rewrite Z.max_l by lia.
  assert (Hs : 0 <= start <= Z.of_nat (List.length l)).
  { unfold start. destruct (index <? 0) eqn:E; [lia|].
    apply Z.ltb_ge in E. lia. }
  rewrite Z.min_l by lia. rewrite Z.add_0_r.
  change (firstn (Z.to_nat start) l ++ [x] ++ skipn (Z.to_nat start) l)
    with (firstn (Z.to_nat start) l ++ x :: skipn (Z.to_nat start) l).
  rewrite <- (firstn_skipn (Z.to_nat start) l) at 3.
  symmetry. apply Permutation_middle.
Qed.

Lemma splice_at {A : Type} (k : nat) (l : list A) :
  splice (Z.of_nat k) 1 [] l = firstn k l ++ skipn (S k) l.
Proof.
  unfold splice.
  replace (Z.of_nat k <? 0) with false by (symmetry; apply Z.ltb_ge; lia).
  rewrite Z.max_l by lia. cbn [app].
  destruct (Nat.lt_ge_cases k (List.length l)) as [Hlt|Hge].
  - rewrite (Z.min_l (Z.of_nat k)) by lia. rewrite Z.min_l by lia.
    rewrite Nat2Z.id.
    now replace (Z.to_nat (Z.of_nat k + 1)) with (S k) by lia.
  - rewrite (Z.min_r (Z.of_nat k)) by lia. rewrite Z.min_r by lia.
    replace (Z.of_nat (List.length l)
             + (Z.of_nat (List.length l) - Z.of_nat (List.length l)))
      with (Z.of_nat (List.length l)) by lia.
    rewrite Nat2Z.id.
    rewrite firstn_all, skipn_all, firstn_all2, skipn_all2 by lia.
    reflexivity.
Qed.

Lemma item_middle {A : Type} (l1 l2 : list A) (x : A) :
  item (l1 ++ x :: l2) (Z.of_nat (List.length l1)) = Some x.
Proof.
  unfold item.
  replace (Z.of_nat (List.length l1) <? 0) with false
    by (symmetry; apply Z.ltb_ge; lia).
  rewrite Nat2Z.id, nth_error_app2, Nat.sub_diag by lia. reflexivity.
Qed.

Lemma item_in_range {A : Type} (l : list A) (index : Z) :
  0 <= index < Z.of_nat (List.length l) -> exists x, item l index = Some x.
Proof.
  intros H. unfold item.
  replace (index <? 0) with false by (symmetry; apply Z.ltb_ge; lia).
  destruct (nth_error l (Z.to_nat index)) as [x|] eqn:E; [now exists x|].
  apply nth_error_None in E. lia.
Qed.

Lemma findIndex_bounds {A : Type} (P : A -> bool) (l : list A) :
  -1 <= findIndex P l < Z.of_nat (List.length l).
Proof.
  induction l as [|x l IH]; cbn [findIndex List.length]; [lia|].
  destruct (P x); [lia|].
  destruct (findIndex P l <? 0) eqn:E; [lia|].
  apply Z.ltb_ge in E. lia.
Qed.

Lemma findIndex_found {A : Type} (P : A -> bool) (l : list A) :
  existsb P l = true -> 0 <= findIndex P l < Z.of_nat (List.length l).
Proof.
  intros H. split; [|apply findIndex_bounds].
  induction l as [|x l IH]; [discriminate|].
  cbn [findIndex existsb] in *. destruct (P x); [lia|].
  specialize (IH H).
  replace (findIndex P l <? 0) with false by (symmetry; apply Z.ltb_ge; lia).
  lia.
Qed.

Lemma findIndex_first {A : Type} (P : A -> bool) (l1 l2 : list A) (x : A) :
  (forall y, In y l1 -> P y = false) -> P x = true ->
  findIndex P (l1 ++ x :: l2) = Z.of_nat (List.length l1).
Proof.
  intros Hl1 Hx. induction l1 as [|y l1 IH]; cbn [findIndex app List.length].
  - now rewrite Hx.
  - rewrite (Hl1 y) by now left.
    rewrite IH by (intros z Hz; apply Hl1; now right).
    replace (Z.of_nat (List.length l1) <? 0) with false
      by (symmetry; apply Z.ltb_ge; lia).
    lia.
Qed.

Lemma includes_In (node : HTMLElement) (l : list HTMLElement) :
  includes node l = true <-> In node l.
Proof.
  unfold includes. rewrite existsb_exists. split.
  - intros (y & Hy & E). apply Pos.eqb_eq in E. now subst.
  - intros H. exists node. split; [exact H | apply Pos.eqb_refl].
Qed.

Lemma findIndex_node_found (node : HTMLElement) (nodes : list HTMLElement) :
  In node nodes ->
  0 <= findIndex (Pos.eqb node) nodes < Z.of_nat (List.length nodes).
Proof. intros H. apply findIndex_found. now apply includes_In. Qed.

Lemma findIndex_node (done rest : list HTMLElement) (node : HTMLElement) :
  ~ In node done ->
  findIndex (Pos.eqb node) (done ++ node :: rest) = Z.of_nat (List.length done).
Proof.
  intros H. apply findIndex_first; [|apply Pos.eqb_refl].
  intros y Hy. apply Pos.eqb_neq. intros ->. contradiction.
Qed.

Lemma findIndex_pane (pre rest : list HTMLElement) (node : HTMLElement) :
  ~ In node pre ->
  findIndex (same node) (map Some (pre ++ node :: rest))
  = Z.of_nat (List.length pre).
Proof.
  intros H. rewrite map_app. cbn [map].
  rewrite findIndex_first; [now rewrite length_map| |apply Pos.eqb_refl].
  intros y Hy. apply in_map_iff in Hy. destruct Hy as (z & <- & Hz).
  apply Pos.eqb_neq. intros ->. contradiction.
Qed.

Lemma isEqual_spec (nodes panes : list HTMLElement) :
  isEqual nodes (map Some panes) = true <-> panes = nodes.
Proof.
  revert panes. induction nodes as [|n nodes IH]; intros [|p panes];
    cbn [isEqual map same]; try (split; [discriminate | discriminate || reflexivity]).
  - split; reflexivity.
  - rewrite andb_true_iff, Pos.eqb_eq, IH. split.
    + now intros [-> ->].
    + intros E. injection E as -> ->. now split.
Qed.

(** ** The effect: the children that have left *)

Lemma dropMarked_step {A : Type} (k : nat) :
  forall (marks : list bool) (l : list A),
  dropMarked (firstn (S k) marks) l
  = dropMarked (firstn k marks)
      (if nth k marks false then firstn k l ++ skipn (S k) l else l).
Proof.
  induction k as [|k IH]; intros [|mark marks] l.
  - reflexivity.
  - destruct l as [|x l]; destruct mark; reflexivity.
  - reflexivity.
  - change (firstn (S (S k)) (mark :: marks)) with (mark :: firstn (S k) marks).
    change (firstn (S k) (mark :: marks)) with (mark :: firstn k marks).
    change (nth (S k) (mark :: marks) false) with (nth k marks false).
    destruct l as [|x l].
    + destruct (nth k marks false); reflexivity.
    + cbn [dropMarked]. rewrite IH.
      destruct (nth k marks false); reflexivity.
Qed.

Lemma dropMarked_map {A : Type} (keep : HTMLElement -> bool)
    (f : HTMLElement -> A) (l : list HTMLElement) :
  dropMarked (map (fun node => negb (keep node)) l) (map f l)
  = map f (filter keep l).
Proof.
  induction l as [|x l IH]; [reflexivity|].
  cbn [map dropMarked filter]. destruct (keep x); cbn [negb map]; now rewrite IH.
Qed.

Lemma dropMarked_length {A : Type} (keep : HTMLElement -> bool)
    (nodes : list HTMLElement) :
  forall l : list A,
  List.length l = List.length nodes ->
  List.length (dropMarked (map (fun node => negb (keep node)) nodes) l)
  = List.length (filter keep nodes).
Proof.
  induction nodes as [|x nodes IH]; intros [|y l] H; try discriminate;
    [reflexivity|].
  cbn [map dropMarked filter]. injection H as H.
  destruct (keep x); cbn [negb List.length]; now rewrite IH.
Qed.

Lemma removeLoop (exit : list bool) (k : nat) :
  forall (panes : list (option HTMLElement)) (views : list PaneView)
         (calls : list Call),
  (k <= List.length panes)%nat ->
  exists newCalls,
    fold_left (removeStep exit) (rev (seq 0 k)) (panes, views, calls)
    = (dropMarked (firstn k exit) panes, dropMarked (firstn k exit) views,
       calls ++ newCalls) /\
    allInRange (Z.of_nat (List.length panes)) newCalls = true /\
    fold_left paneCountAfter newCalls (Z.of_nat (List.length panes))
    = Z.of_nat (List.length (dropMarked (firstn k exit) panes)) /\
    Forall (fun call => structural call = true) newCalls.
Proof.
  induction k as [|k IH]; intros panes views calls Hk.
  - exists []. cbn [seq rev fold_left firstn]. rewrite app_nil_r.
    destruct exit; repeat split; auto.
  - rewrite seq_S, rev_unit. cbn [fold_left Nat.add].
    rewrite !dropMarked_step. unfold removeStep at 2.
    destruct (nth k exit false) eqn:Hmark.
    + rewrite !splice_at.
      assert (Hlen : List.length (firstn k panes ++ skipn (S k) panes)
                     = (List.length panes - 1)%nat).
      { rewrite length_app, length_firstn, length_skipn. lia. }
      destruct (IH (firstn k panes ++ skipn (S k) panes)
                  (firstn k views ++ skipn (S k) views)
                  (calls ++ [CallRemoveView (Z.of_nat k)]) ltac:(lia))
        as (newCalls & Hfold & Hrange & Hcount & Hstructural).
      exists (CallRemoveView (Z.of_nat k) :: newCalls).
      rewrite Hfold, <- app_assoc. split; [reflexivity|].
      rewrite Hlen in Hrange, Hcount.
      cbn [allInRange inRange paneCountAfter fold_left].
      replace (Z.of_nat (List.length panes) - 1)
        with (Z.of_nat (List.length panes - 1)) by lia.
      rewrite Hrange, Hcount. split; [|split; [reflexivity | now constructor]].
      rewrite andb_true_r. apply andb_true_iff.
      split; [apply Z.leb_le | apply Z.ltb_lt]; lia.
    + apply IH. lia.
Qed.

Lemma removeExited_spec (keep : HTMLElement -> bool)
    (previous : list HTMLElement) (views : list PaneView) (calls : list Call) :
  exists newCalls,
    removeExited (map (fun node => negb (keep node)) previous)
      (map Some previous, views, calls)
    = (map Some (filter keep previous),
       dropMarked (map (fun node => negb (keep node)) previous) views,
       calls ++ newCalls) /\
    allInRange (Z.of_nat (List.length previous)) newCalls = true /\
    fold_left paneCountAfter newCalls (Z.of_nat (List.length previous))
    = Z.of_nat (List.length (filter keep previous)) /\
    Forall (fun call => structural call = true) newCalls.
Proof.
  unfold removeExited.
  destruct (removeLoop (map (fun node => negb (keep node)) previous)
              (List.length (map (fun node => negb (keep node)) previous))
              (map Some previous) views calls)
    as (newCalls & Hfold & Hrange & Hcount & Hstructural).
  { rewrite !length_map. lia. }
  rewrite firstn_all, dropMarked_map in *.
  rewrite !length_map in *.
  exists newCalls. rewrite Hfold. auto.
Qed.

Lemma Forall_dropMarked {A : Type} (P : A -> Prop) (marks : list bool) :
  forall l : list A, Forall P l -> Forall P (dropMarked marks l).
Proof.
  induction marks as [|mark marks IH]; intros l Hl; [exact Hl|].
  destruct Hl as [|x l Hx Hl]; [constructor|].
  cbn [dropMarked]. destruct mark; [now apply IH|].
  constructor; [exact Hx | now apply IH].
Qed.

Lemma removeExited_none (exit : list bool)
    (s : list (option HTMLElement) * list PaneView * list Call) :
  (forall index, nth index exit false = false) -> removeExited exit s = s.
Proof.
  intros Hnone. unfold removeExited.
  induction (rev (seq 0 (List.length exit))) as [|index l IH]; [reflexivity|].
  cbn [fold_left]. unfold removeStep at 2. destruct s as [[panes views] calls].
  now rewrite Hnone.
Qed.

(** ** One view under the update loop *)

Local Abbreviation stepPreferred h declared :=
  (assignField declared (fun view => of_option (preferredSize h view))
     set_preferredSize).
Local Abbreviation stepMinimum declared :=
  (assignField declared (fun view => VNumber (minimumSize view))
     set_minimumSize).
Local Abbreviation stepMaximum declared :=
  (assignField declared (fun view => VNumber (maximumSize view))
     set_maximumSize).
Local Abbreviation assignsPreferred h declared :=
  (assigns declared (fun view => of_option (preferredSize h view))).
Local Abbreviation assignsMinimum declared :=
  (assigns declared (fun view => VNumber (minimumSize view))).
Local Abbreviation assignsMaximum declared :=
  (assigns declared (fun view => VNumber (maximumSize view))).

Lemma assignsMinimum_stable (h : Heap) (declared a b : value) (view : PaneView) :
  assignsMinimum declared (stepPreferred h a view) = assignsMinimum declared view
  /\ assignsMinimum declared (stepMaximum b view) = assignsMinimum declared view.
Proof.
  unfold assignField.
  split; match goal with |- context [if ?c then _ else _] => now destruct c end.
Qed.

Lemma assignsMaximum_stable (h : Heap) (declared a b : value) (view : PaneView) :
  assignsMaximum declared (stepPreferred h a view) = assignsMaximum declared view
  /\ assignsMaximum declared (stepMinimum b view) = assignsMaximum declared view.
Proof.
  unfold assignField.
  split; match goal with |- context [if ?c then _ else _] => now destruct c end.
Qed.

Lemma assignsPreferred_stable (h : Heap) (declared a b : value) (view : PaneView) :
  assignsPreferred h declared (stepMinimum a view)
  = assignsPreferred h declared view
  /\ assignsPreferred h declared (stepMaximum b view)
     = assignsPreferred h declared view.
Proof.
  unfold assignField.
  split; match goal with |- context [if ?c then _ else _] => now destruct c end.
Qed.

Lemma steps_commute (h : Heap) (a b d : value) (view : PaneView) :
  stepPreferred h a (stepMinimum b view) = stepMinimum b (stepPreferred h a view)
  /\ stepPreferred h a (stepMaximum d view)
     = stepMaximum d (stepPreferred h a view)
  /\ stepMinimum b (stepMaximum d view) = stepMaximum d (stepMinimum b view).
Proof.
  repeat split.
  - unfold assignField at 1 3.
    rewrite (proj1 (assignsPreferred_stable h a b b view)).
    rewrite (proj1 (assignsMinimum_stable h b a a view)).
    unfold assignField.
    destruct (assignsPreferred h a view), (assignsMinimum b view); reflexivity.
  - unfold assignField at 1 3.
    rewrite (proj2 (assignsPreferred_stable h a d d view)).
    rewrite (proj1 (assignsMaximum_stable h d a a view)).
    unfold assignField.
    destruct (assignsPreferred h a view), (assignsMaximum d view); reflexivity.
  - unfold assignField at 1 3.
    rewrite (proj2 (assignsMinimum_stable h b d d view)).
    rewrite (proj2 (assignsMaximum_stable h d b b view)).
    unfold assignField.
    destruct (assignsMinimum b view), (assignsMaximum d view); reflexivity.
Qed.

Lemma stepPreferred_settles (h : Heap) (declared : value) (view : PaneView) :
  stepPreferred h declared (stepPreferred h declared view)
  = stepPreferred h declared view.
Proof.
  unfold assignField.
  destruct (assignsPreferred h declared view) eqn:Hfirst.
  - destruct (assignsPreferred h declared (set_preferredSize declared view));
      reflexivity.
  - now rewrite Hfirst.
Qed.

Lemma stepMinimum_settles (declared : value) (view : PaneView) :
  settling declared ->
  stepMinimum declared (stepMinimum declared view) = stepMinimum declared view
  /\ assignsMinimum declared (stepMinimum declared view) = false.
Proof.
  intros [->|(n & -> & Hn)]; [now split|].
  unfold assignField.
  destruct (assignsMinimum (VNumber n) view) eqn:Hfirst.
  - assert (Hsecond : assignsMinimum (VNumber n)
                        (set_minimumSize (VNumber n) view) = false).
    { unfold assigns. cbn. now rewrite Hn. }
    now rewrite Hsecond.
  - now rewrite Hfirst.
Qed.

Lemma stepMaximum_settles (declared : value) (view : PaneView) :
  settling declared ->
  stepMaximum declared (stepMaximum declared view) = stepMaximum declared view
  /\ assignsMaximum declared (stepMaximum declared view) = false.
Proof.
  intros [->|(n & -> & Hn)]; [now split|].
  unfold assignField.
  destruct (assignsMaximum (VNumber n) view) eqn:Hfirst.
  - assert (Hsecond : assignsMaximum (VNumber n)
                        (set_maximumSize (VNumber n) view) = false).
    { unfold assigns. cbn. now rewrite Hn. }
    now rewrite Hsecond.
  - now rewrite Hfirst.
Qed.

Lemma afterUpdate_settles (h : Heap) (svProps : PaneProps) (view : PaneView) :
  settling (p_minSize svProps) -> settling (p_maxSize svProps) ->
  afterUpdate h svProps (afterUpdate h svProps view) = afterUpdate h svProps view
  /\ sizeChanged svProps (afterUpdate h svProps view) = false.
Proof.
  intros Hmin Hmax. unfold afterUpdate, sizeChanged.
  set (a := p_preferredSize svProps). set (b := p_minSize svProps) in *.
  set (d := p_maxSize svProps) in *.
  split.
  - rewrite (proj1 (proj2 (steps_commute h a b d _))).
    rewrite (proj1 (steps_commute h a b d _)).
    rewrite stepPreferred_settles.
    rewrite (proj2 (proj2 (steps_commute h a b d _))).
    rewrite (proj1 (stepMinimum_settles b _ Hmin)).
    now rewrite (proj1 (stepMaximum_settles d _ Hmax)).
  - rewrite (proj2 (assignsMinimum_stable h b a d _)).
    rewrite (proj2 (stepMinimum_settles b _ Hmin)).
    now rewrite (proj2 (stepMaximum_settles d _ Hmax)).
Qed.

Lemma eqb_NaN (n x : number) :
  PrimFloat.eqb n n = false -> PrimFloat.eqb x n = false.
Proof.
  rewrite !eqb_spec.
  destruct (Prim2SF n) as [s|s| |s m e]; destruct (Prim2SF x);
    cbn; try discriminate; try reflexivity.
  all: intros H; exfalso; revert H; destruct s;
    rewrite ?Z.compare_refl, ?Pos.compare_cont_refl; cbn; discriminate.
Qed.

(** ** The effect: the children that have come *)

Section Reconciliation.

Variable layoutService : LayoutServiceRef.
Variable props : AllotmentProps.
Variable splitViewPropsRef : Map PaneProps.
Variable splitViewViewRef : Map HTMLElement.

Lemma addLoop (nodes previous : list HTMLElement) :
  NoDup nodes ->
  forall (todo done : list HTMLElement) (panes : list (option HTMLElement))
         (views : list PaneView) (calls : list Call) (next : HTMLElement),
  nodes = done ++ todo ->
  (List.length done
   + List.length (filter (fun node => includes node previous) todo)
   <= List.length panes)%nat ->
  let enter := filter (fun node => negb (includes node previous)) todo in
  exists panes' views' newCalls next',
    addEntered layoutService props splitViewPropsRef splitViewViewRef nodes
      enter (panes, views, calls, next)
    = (panes', views', calls ++ newCalls, next') /\
    Permutation panes' (map Some enter ++ panes) /\
    List.length views' = (List.length views + List.length enter)%nat /\
    allInRange (Z.of_nat (List.length panes)) newCalls = true /\
    fold_left paneCountAfter newCalls (Z.of_nat (List.length panes))
    = Z.of_nat (List.length panes') /\
    Forall (fun call => structural call = true) newCalls /\
    forall P : PaneView -> Prop,
      (forall node element,
         P (createPaneView layoutService props
              (mapGet splitViewPropsRef node) element)) ->
      Forall P views -> Forall P views'.
Proof.
  intros Hnodup todo.
  induction todo as [|node todo IH];
    intros done panes views calls next Hnodes Hlen enter; subst enter.
  - exists panes, views, [], next. cbn.
    rewrite app_nil_r. repeat split; auto.
  - assert (Hnodes' : nodes = (done ++ [node]) ++ todo)
      by (now rewrite <- app_assoc).
    cbn [filter] in *.
    destruct (includes node previous) eqn:Hin; cbn [negb].
    + apply (IH (done ++ [node]) panes views calls next Hnodes').
      rewrite length_app. cbn [List.length] in *. lia.
    + unfold addEntered. cbn [fold_left]. unfold enterStep at 2.
      assert (Hindex : findIndex (Pos.eqb node) nodes
                       = Z.of_nat (List.length done)).
      { rewrite Hnodes. apply findIndex_node.
        rewrite Hnodes in Hnodup. apply NoDup_remove_2 in Hnodup.
        intros H. apply Hnodup. apply in_or_app. now left. }
      rewrite Hindex.
      set (view := createPaneView layoutService props
                     (mapGet splitViewPropsRef node) next).
      destruct (IH (done ++ [node])
                  (splice (Z.of_nat (List.length done)) 0 [Some node] panes)
                  (splice (Z.of_nat (List.length done)) 0 [view] views)
                  (calls ++ [CallAddView (mapGet splitViewViewRef node) view
                               (Z.of_nat (List.length done))])
                  (Pos.succ next) Hnodes')
        as (panes' & views' & newCalls & next' & Hfold & Hperm & Hviews
            & Hrange & Hcount & Hstructural & Hforall).
      { rewrite length_app, splice_length_insert. cbn [List.length]. lia. }
      exists panes', views',
        (CallAddView (mapGet splitViewViewRef node) view
           (Z.of_nat (List.length done)) :: newCalls), next'.
      unfold addEntered in Hfold.
      split; [etransitivity; [exact Hfold | now rewrite <- app_assoc]|].
      rewrite splice_length_insert in Hviews.
      rewrite splice_length_insert in Hrange.
      rewrite splice_length_insert in Hcount.
      split; [|split; [|split; [|split; [|split]]]].
      * rewrite Hperm. cbn [map app].
        rewrite (splice_insert_Permutation _ (Some node) panes).
        symmetry. apply Permutation_middle.
      * rewrite Hviews. cbn [List.length]. lia.
      * cbn [allInRange inRange paneCountAfter].
        replace (Z.of_nat (List.length panes) + 1)
          with (Z.of_nat (S (List.length panes))) by lia.
        rewrite Hrange, andb_true_r. apply andb_true_iff.
        split; apply Z.leb_le; lia.
      * cbn [fold_left paneCountAfter].
        replace (Z.of_nat (List.length panes) + 1)
          with (Z.of_nat (S (List.length panes))) by lia.
        exact Hcount.
      * now constructor.
      * intros P Hnew Hold. apply Hforall; [exact Hnew|].
        apply (Permutation_Forall
                 (Permutation_sym (splice_insert_Permutation _ view views))).
        constructor; [apply Hnew | exact Hold].
Qed.

(** ** The effect: the panes that have moved *)

Lemma first_difference (qs : list HTMLElement) :
  forall rest, qs <> rest -> List.length qs = List.length rest ->
  exists common x rest' y qs',
    rest = common ++ x :: rest' /\ qs = common ++ y :: qs' /\ x <> y.
Proof.
  induction qs as [|q qs IH]; intros [|r rest] Hne Hlen; try discriminate.
  - now elim Hne.
  - destruct (Pos.eq_dec q r) as [->|Hqr].
    + destruct (IH rest) as (common & x & rest' & y & qs' & -> & -> & Hxy).
      * intros ->. now elim Hne.
      * now injection Hlen.
      * now exists (r :: common), x, rest', y, qs'.
    + exists [], r, rest, q, qs. repeat split; auto.
Qed.

Lemma firstMisplaced_skip (tail : list HTMLElement) (others : list HTMLElement) :
  forall placed done : list HTMLElement,
  NoDup (done ++ placed) ->
  firstMisplaced (placed ++ tail) (Z.of_nat (List.length done))
    (map Some (done ++ placed ++ others))
  = firstMisplaced tail (Z.of_nat (List.length (done ++ placed)))
      (map Some (done ++ placed ++ others)).
Proof.
  induction placed as [|node placed IH]; intros done Hnodup.
  - now rewrite app_nil_r.
  - cbn [app firstMisplaced].
    rewrite findIndex_pane, Z.eqb_refl.
    2:{ apply NoDup_remove_2 in Hnodup. intros H. apply Hnodup.
        apply in_or_app. now left. }
    replace (Z.of_nat (List.length done) + 1)
      with (Z.of_nat (List.length (done ++ [node])))
      by (rewrite length_app; cbn [List.length]; lia).
    replace (done ++ node :: placed ++ others)
      with ((done ++ [node]) ++ placed ++ others)
      by (now rewrite <- app_assoc).
    rewrite IH by (now rewrite <- app_assoc).
    now rewrite <- !app_assoc.
Qed.

Lemma moveLoop (nodes : list HTMLElement) :
  NoDup nodes ->
  forall (fuel : nat) (pre rest qs : list HTMLElement) (calls : list Call),
  nodes = pre ++ rest ->
  Permutation qs rest ->
  (List.length rest <= fuel)%nat ->
  exists newCalls,
    movePanes splitViewViewRef fuel nodes (map Some (pre ++ qs), calls)
    = Returned (map Some nodes, calls ++ newCalls) /\
    Forall (fun c => match c with
                     | CallMoveView _ from to =>
                         0 <= from < Z.of_nat (List.length nodes) /\
                         0 <= to < Z.of_nat (List.length nodes)
                     | _ => False
                     end) newCalls /\
    (qs <> rest -> newCalls <> []).
Proof.
  intros Hnodup fuel.
  induction fuel as [|fuel IH]; intros pre rest qs calls Hnodes Hperm Hfuel.
  - destruct rest; [|cbn in Hfuel; lia].
    apply Permutation_sym, Permutation_nil in Hperm. subst qs.
    exists []. cbn [movePanes fst]. rewrite Hnodes, app_nil_r.
    rewrite (proj2 (isEqual_spec pre pre) eq_refl).
    repeat split; auto. now rewrite app_nil_r.
  - destruct (list_eq_dec Pos.eq_dec qs rest) as [->|Hne].
    + exists []. cbn [movePanes fst]. rewrite <- Hnodes.
      rewrite (proj2 (isEqual_spec nodes nodes) eq_refl).
      repeat split; auto. now rewrite app_nil_r.
    + cbn [movePanes fst].
      destruct (isEqual nodes (map Some (pre ++ qs))) eqn:Heq.
      { apply isEqual_spec in Heq. rewrite Hnodes in Heq.
        apply app_inv_head in Heq. contradiction. }
      destruct (first_difference qs rest Hne (Permutation_length Hperm))
        as (common & x & rest' & y & qs' & -> & -> & Hxy).
      assert (Hperm' : Permutation (y :: qs') (x :: rest'))
        by (now apply Permutation_app_inv_l in Hperm).
      assert (Hx : In x qs').
      { assert (H : In x (y :: qs'))
          by (apply (Permutation_in x (Permutation_sym Hperm')); now left).
        destruct H as [H|H]; [now elim Hxy | exact H]. }
      apply in_split in Hx. destruct Hx as (q1 & q2 & ->).
      assert (Hpanes : NoDup ((pre ++ common ++ y :: q1) ++ x :: q2)).
      { rewrite <- app_assoc, <- app_assoc. cbn [app].
        apply (Permutation_NoDup (l := nodes)); [|exact Hnodup].
        rewrite Hnodes. apply Permutation_app_head. now symmetry. }
      assert (Hfirst : ~ In x (pre ++ common ++ y :: q1)).
      { apply NoDup_remove_2 in Hpanes. intros H. apply Hpanes.
        apply in_or_app. now left. }
      assert (Hplaced : NoDup ([] ++ pre ++ common)).
      { cbn [app]. rewrite Hnodes, app_assoc in Hnodup.
        now apply NoDup_app_remove_r in Hnodup. }
      assert (Hmis : firstMisplaced nodes 0
                       (map Some (pre ++ common ++ y :: q1 ++ x :: q2))
                     = Some (x, Z.of_nat (List.length (pre ++ common ++ y :: q1)),
                             Z.of_nat (List.length (pre ++ common)))).
      { rewrite Hnodes.
        pose proof (firstMisplaced_skip (x :: rest') (y :: q1 ++ x :: q2)
                      (pre ++ common) [] Hplaced) as Hskip.
        cbn [app List.length Z.of_nat] in Hskip.
        rewrite <- !app_assoc in Hskip. rewrite Hskip.
        cbn [firstMisplaced].
        replace (pre ++ common ++ y :: q1 ++ x :: q2)
          with ((pre ++ common ++ y :: q1) ++ x :: q2)
          by (now rewrite <- !app_assoc).
        rewrite findIndex_pane by exact Hfirst.
        replace (Z.of_nat (List.length (pre ++ common ++ y :: q1))
                 =? Z.of_nat (List.length (pre ++ common))) with false.
        - reflexivity.
        - symmetry. apply Z.eqb_neq. rewrite !length_app. cbn [List.length].
          rewrite ?length_app. cbn [List.length]. lia. }
      unfold moveStep. rewrite Hmis.
      replace (map Some (pre ++ common ++ y :: q1 ++ x :: q2))
        with (map Some (pre ++ common ++ y :: q1) ++ Some x :: map Some q2).
      2:{ rewrite <- (map_cons Some x q2), <- map_app.
          now rewrite <- !app_assoc. }
      rewrite <- (length_map Some (pre ++ common ++ y :: q1)).
      rewrite item_middle, splice_delete.
      replace (map Some (pre ++ common ++ y :: q1) ++ map Some q2)
        with (map Some (pre ++ common) ++ map Some (y :: q1 ++ q2)).
      2:{ rewrite <- !map_app. now rewrite <- !app_assoc. }
      rewrite <- (length_map Some (pre ++ common)).
      rewrite splice_insert.
      replace (map Some (pre ++ common) ++ Some x :: map Some (y :: q1 ++ q2))
        with (map Some (((pre ++ common) ++ [x]) ++ y :: q1 ++ q2)).
      2:{ rewrite !map_app, <- !app_assoc. reflexivity. }
      destruct (IH ((pre ++ common) ++ [x]) rest' (y :: q1 ++ q2)
                  (calls ++ [CallMoveView (mapGet splitViewViewRef x)
                               (Z.of_nat (List.length
                                  (map Some (pre ++ common ++ y :: q1))))
                               (Z.of_nat (List.length
                                  (map Some (pre ++ common))))]))
        as (newCalls & Hmove & Hmoves & _).
      * rewrite Hnodes. now rewrite <- !app_assoc.
      * apply (Permutation_cons_inv (a := x)).
        rewrite <- Hperm'.
        apply (Permutation_middle (y :: q1) q2 x).
      * rewrite length_app in Hfuel. cbn [List.length] in Hfuel. lia.
      * eexists. rewrite Hmove, <- app_assoc. split; [reflexivity|].
        split; [|discriminate].
        constructor; [|exact Hmoves].
        pose proof (Permutation_length Hperm') as Hsame.
        cbn [List.length] in Hsame. rewrite length_app in Hsame.
        cbn [List.length] in Hsame.
        rewrite !length_map, Hnodes, !length_app. cbn [List.length].
        rewrite ?length_app. cbn [List.length]. lia.
Qed.


(** ** The effect: the loops after the moves *)

Lemma steady_calls (count : Z) (cs : list Call) :
  Forall (fun c => inRange count c = true /\ paneCountAfter count c = count) cs ->
  allInRange count cs = true /\ fold_left paneCountAfter cs count = count.
Proof.
  induction 1 as [|c cs [Hr Hc] _ [IHr IHc]]; [now split|].
  cbn [allInRange fold_left]. now rewrite Hr, Hc, IHr, IHc.
Qed.

Lemma allInRange_app (a b : list Call) :
  forall count,
  allInRange count (a ++ b)
  = allInRange count a && allInRange (fold_left paneCountAfter a count) b.
Proof.
  induction a as [|c a IH]; intros count; [reflexivity|].
  cbn [app allInRange fold_left]. now rewrite IH, andb_assoc.
Qed.

Lemma between (index count : Z) :
  0 <= index < count -> (0 <=? index) && (index <? count) = true.
Proof.
  intros H. apply andb_true_iff. split; [apply Z.leb_le | apply Z.ltb_lt]; lia.
Qed.

Lemma resizeLoop (h : Heap) (nodes : list HTMLElement) (views : list PaneView) :
  List.length views = List.length nodes ->
  forall (enter : list HTMLElement) (calls : list Call),
  (forall node, In node enter -> In node nodes) ->
  exists newCalls,
    forEach (resizeEntered h nodes views) enter calls
    = Returned (calls ++ newCalls) /\
    Forall (fun c => match c with
                     | CallResizeView index _ =>
                         0 <= index < Z.of_nat (List.length nodes)
                     | _ => False
                     end) newCalls.
Proof.
  intros Hlen enter.
  induction enter as [|node enter IH]; intros calls Hin.
  - exists []. cbn [forEach]. now rewrite app_nil_r.
  - cbn [forEach]. unfold resizeEntered at 1.
    pose proof (findIndex_node_found node nodes (Hin node (or_introl eq_refl)))
      as Hindex.
    destruct (item_in_range views (findIndex (Pos.eqb node) nodes)) as [view Hview];
      [now rewrite Hlen|].
    rewrite Hview.
    destruct (preferredSize h view) as [size|]; cbn [bind].
    + destruct (IH (calls ++ [CallResizeView (findIndex (Pos.eqb node) nodes) size]))
        as (newCalls & Hloop & Hcalls).
      { intros n Hn. apply Hin. now right. }
      exists (CallResizeView (findIndex (Pos.eqb node) nodes) size :: newCalls).
      rewrite Hloop, <- app_assoc. split; [reflexivity|].
      now constructor.
    + apply IH. intros n Hn. apply Hin. now right.
Qed.

Variable isViewVisible : list Call -> Z -> value.

Lemma showLoop (nodes : list HTMLElement) :
  forall (l : list HTMLElement) (calls : list Call),
  (forall node, In node l -> In node nodes) ->
  exists newCalls,
    fold_left (showOrHide splitViewPropsRef isViewVisible nodes) l calls
    = calls ++ newCalls /\
    Forall (fun c => match c with
                     | CallSetViewVisible index _ =>
                         0 <= index < Z.of_nat (List.length nodes)
                     | _ => False
                     end) newCalls.
Proof.
  induction l as [|node l IH]; intros calls Hin.
  - exists []. cbn [fold_left]. now rewrite app_nil_r.
  - cbn [fold_left].
    pose proof (findIndex_node_found node nodes (Hin node (or_introl eq_refl)))
      as Hindex.
    assert (Hrest : forall n, In n l -> In n nodes)
      by (intros n Hn; apply Hin; now right).
    unfold showOrHide at 2.
    destruct (mapGet splitViewPropsRef node) as [svProps|]; [|now apply IH].
    match goal with |- context [if ?b then _ else _] => destruct b end;
      [|now apply IH].
    destruct (IH (calls ++ [CallSetViewVisible (findIndex (Pos.eqb node) nodes)
                              (p_visible svProps)]) Hrest)
      as (newCalls & Hloop & Hcalls).
    exists (CallSetViewVisible (findIndex (Pos.eqb node) nodes)
              (p_visible svProps) :: newCalls).
    rewrite Hloop, <- app_assoc. split; [reflexivity|]. now constructor.
Qed.

Lemma setItem_spec {A : Type} (l : list A) (index : Z) (old new : A) :
  item l index = Some old ->
  exists l1 l2, l = l1 ++ old :: l2 /\ setItem l index new = l1 ++ new :: l2.
Proof.
  unfold item, setItem. destruct (index <? 0); [discriminate|].
  intros H. apply nth_error_split in H. destruct H as (l1 & l2 & -> & <-).
  exists l1, l2. split; [reflexivity|].
  rewrite firstn_app, Nat.sub_diag, firstn_all. cbn [firstn].
  rewrite app_nil_r.
  replace (S (List.length l1)) with (List.length l1 + 1)%nat by lia.
  rewrite skipn_app, Nat.add_sub_swap, Nat.sub_diag by lia.
  rewrite skipn_all2 by lia. reflexivity.
Qed.

Lemma updateField_spec (declared : value) (current : PaneView -> value)
    (assignTo : value -> PaneView -> PaneView) (views : list PaneView)
    (index : Z) :
  (forall v view, element (assignTo v view) = element view) ->
  0 <= index < Z.of_nat (List.length views) ->
  exists views' changed,
    updateField declared current assignTo views index
    = Returned (views', changed) /\
    List.length views' = List.length views /\
    map element views' = map element views.
Proof.
  intros Helement Hindex. unfold updateField.
  destruct (negb (strict_equal declared VUndefined));
    [|now exists views, false].
  destruct (item_in_range views index Hindex) as [view Hview]. rewrite Hview.
  destruct (negb (strict_equal (current view) declared));
    [|now exists views, false].
  destruct (setItem_spec views index view (assignTo declared view) Hview)
    as (l1 & l2 & -> & ->).
  eexists _, true. split; [reflexivity|].
  rewrite !length_app, !map_app. cbn [List.length map].
  now rewrite Helement.
Qed.

Lemma updateView_spec (h : Heap) (nodes : list HTMLElement)
    (views : list PaneView) (calls : list Call) (node : HTMLElement) :
  In node nodes ->
  List.length views = List.length nodes ->
  exists views' newCalls,
    updateView splitViewPropsRef h nodes (views, calls) node
    = Returned (views', calls ++ newCalls) /\
    List.length views' = List.length views /\
    map element views' = map element views /\
    (newCalls = [] \/ newCalls = [CallLayout None]).
Proof.
  intros Hin Hlen. unfold updateView.
  pose proof (findIndex_node_found node nodes Hin) as Hindex.
  rewrite <- Hlen in Hindex.
  destruct (mapGet splitViewPropsRef node) as [svProps|].
  2:{ exists views, []. rewrite app_nil_r. auto. }
  destruct (isPaneProps svProps).
  2:{ exists views, []. rewrite app_nil_r. auto. }
  destruct (updateField_spec (p_preferredSize svProps)
              (fun view => of_option (preferredSize h view))
              set_preferredSize views _ ltac:(reflexivity) Hindex)
    as (views1 & changed1 & -> & Hlen1 & Hel1).
  cbn [bind fst snd]. rewrite <- Hlen1 in Hindex.
  destruct (updateField_spec (p_minSize svProps)
              (fun view => VNumber (minimumSize view))
              set_minimumSize views1 _ ltac:(reflexivity) Hindex)
    as (views2 & changed2 & -> & Hlen2 & Hel2).
  cbn [bind fst snd]. rewrite <- Hlen2 in Hindex.
  destruct (updateField_spec (p_maxSize svProps)
              (fun view => VNumber (maximumSize view))
              set_maximumSize views2 _ ltac:(reflexivity) Hindex)
    as (views3 & changed3 & -> & Hlen3 & Hel3).
  cbn [bind fst snd].
  exists views3, (if changed2 || changed3 then [CallLayout None] else []).
  split; [|split; [congruence | split; [congruence|]]].
  - destruct (changed2 || changed3); [reflexivity | now rewrite app_nil_r].
  - destruct (changed2 || changed3); auto.
Qed.

Lemma updateLoop (h : Heap) (nodes : list HTMLElement) :
  forall (update : list HTMLElement) (views : list PaneView) (calls : list Call),
  (forall node, In node update -> In node nodes) ->
  List.length views = List.length nodes ->
  exists views' newCalls,
    forEach (updateView splitViewPropsRef h nodes) update (views, calls)
    = Returned (views', calls ++ newCalls) /\
    List.length views' = List.length views /\
    map element views' = map element views /\
    Forall (fun c => c = CallLayout None) newCalls.
Proof.
  induction update as [|node update IH]; intros views calls Hin Hlen.
  - exists views, []. cbn [forEach]. rewrite app_nil_r. auto.
  - cbn [forEach].
    destruct (updateView_spec h nodes views calls node
                (Hin node (or_introl eq_refl)) Hlen)
      as (views1 & calls1 & -> & Hlen1 & Hel1 & Hcalls1).
    cbn [bind].
    destruct (IH views1 (calls ++ calls1)) as (views2 & calls2 & -> & Hlen2 & Hel2 & Hcalls2).
    { intros n Hn. apply Hin. now right. }
    { congruence. }
    exists views2, (calls1 ++ calls2). rewrite app_assoc.
    split; [reflexivity | split; [congruence | split; [congruence|]]].
    apply Forall_app. split; [|exact Hcalls2].
    destruct Hcalls1 as [->| ->]; auto.
Qed.

(** ** The effect as a whole *)

Lemma filter_partition (f : HTMLElement -> bool) (l : list HTMLElement) :
  Permutation (filter (fun x => negb (f x)) l ++ filter f l) l.
Proof.
  induction l as [|x l IH]; [constructor|].
  cbn [filter]. destruct (f x); cbn [negb app].
  - rewrite <- Permutation_middle. now constructor.
  - now constructor.
Qed.

Lemma filter_common (nodes previous : list HTMLElement) :
  NoDup nodes -> NoDup previous ->
  Permutation (filter (fun node => includes node nodes) previous)
              (filter (fun node => includes node previous) nodes).
Proof.
  intros Hn Hp. apply NoDup_Permutation; try now apply NoDup_filter.
  intros x. rewrite !filter_In, !includes_In. tauto.
Qed.

Lemma previousNodes_after (nodes previous : list HTMLElement) :
  (if (0 <? List.length
              (filter (fun node => negb (includes node previous)) nodes))%nat
      || (0 <? List.length
                 (map (fun node => negb (includes node nodes)) previous))%nat
   then nodes else previous) = nodes.
Proof.
  destruct previous as [|p previous].
  - destruct nodes as [|n nodes]; reflexivity.
  - cbn [map List.length]. now rewrite orb_true_r.
Qed.

Lemma structural_part (fuel : nat) (nodes : list HTMLElement) (c : Component) :
  NoDup nodes -> NoDup (previousNodes c) ->
  List.length (views c) = List.length (previousNodes c) ->
  (List.length nodes <= fuel)%nat ->
  exists panes1 views1 calls1 panes2 views2 calls2 next2 newCalls,
    removeExited (map (fun node => negb (includes node nodes)) (previousNodes c))
      (map Some (previousNodes c), views c, calls c)
    = (panes1, views1, calls1) /\
    addEntered layoutService props splitViewPropsRef splitViewViewRef nodes
      (filter (fun node => negb (includes node (previousNodes c))) nodes)
      (panes1, views1, calls1, nextElement c)
    = (panes2, views2, calls2, next2) /\
    movePanes splitViewViewRef fuel nodes (panes2, calls2)
    = Returned (map Some nodes, calls c ++ newCalls) /\
    List.length views2 = List.length nodes /\
    allInRange (Z.of_nat (List.length (previousNodes c))) newCalls = true /\
    fold_left paneCountAfter newCalls (Z.of_nat (List.length (previousNodes c)))
    = Z.of_nat (List.length nodes) /\
    Forall (fun call => structural call = true) newCalls /\
    forall P : PaneView -> Prop,
      (forall node element,
         P (createPaneView layoutService props
              (mapGet splitViewPropsRef node) element)) ->
      Forall P (views c) -> Forall P views2.
Proof.
  intros Hnodes Hprevious Hviews Hfuel.
  set (enter := filter (fun node => negb (includes node (previousNodes c))) nodes).
  set (update := filter (fun node => includes node (previousNodes c)) nodes).
  destruct (removeExited_spec (fun node => includes node nodes)
              (previousNodes c) (views c) (calls c))
    as (calls1 & Hremove & Hrange1 & Hcount1 & Hstructural1).
  set (kept := filter (fun node => includes node nodes) (previousNodes c)) in *.
  assert (Hkept : Permutation kept update) by (now apply filter_common).
  assert (Hall : Permutation (enter ++ kept) nodes).
  { rewrite Hkept. apply filter_partition. }
  destruct (addLoop nodes (previousNodes c) Hnodes nodes [] (map Some kept)
              (dropMarked (map (fun node => negb (includes node nodes))
                             (previousNodes c)) (views c))
              (calls c ++ calls1) (nextElement c) eq_refl)
    as (panes2 & views2 & calls2 & next2 & Hadd & Hpanes2 & Hviews2
        & Hrange2 & Hcount2 & Hstructural2 & Hforall2).
  { rewrite length_map. fold update. cbn [List.length].
    now rewrite (Permutation_length Hkept). }
  fold enter in Hadd, Hpanes2, Hviews2.
  rewrite <- map_app in Hpanes2.
  apply Permutation_map_inv in Hpanes2. destruct Hpanes2 as (qs & -> & Hqs).
  assert (Hqs' : Permutation qs nodes) by (now rewrite <- Hqs).
  destruct (moveLoop nodes Hnodes fuel [] nodes qs ((calls c ++ calls1) ++ calls2)
              eq_refl Hqs' Hfuel)
    as (calls3 & Hmove & Hcalls3 & _).
  cbn [app] in Hmove.
  rewrite (dropMarked_length (fun node => includes node nodes)) in Hviews2
    by exact Hviews.
  fold kept in Hviews2.
  assert (Hlen2 : List.length views2 = List.length nodes).
  { rewrite Hviews2, <- (Permutation_length Hall), length_app. lia. }
  do 7 eexists. exists (calls1 ++ calls2 ++ calls3).
  split; [exact Hremove|]. split; [exact Hadd|].
  split; [now rewrite Hmove, <- !app_assoc|].
  split; [exact Hlen2|].
  assert (Hsteady : Forall (fun c => inRange (Z.of_nat (List.length nodes)) c = true
                                     /\ paneCountAfter (Z.of_nat (List.length nodes)) c
                                        = Z.of_nat (List.length nodes)) calls3).
  { eapply Forall_impl; [|exact Hcalls3].
    intros [] Hc; try contradiction. cbn [inRange paneCountAfter].
    destruct Hc as [Hfrom Hto]. now rewrite <- andb_assoc, !between. }
  apply steady_calls in Hsteady. destruct Hsteady as [Hrange3 Hcount3].
  rewrite length_map in Hrange2, Hcount2.
  assert (Hcount2' : Z.of_nat (List.length (map Some qs))
                     = Z.of_nat (List.length nodes)).
  { now rewrite length_map, (Permutation_length Hqs'). }
  rewrite !allInRange_app, !fold_left_app.
  rewrite Hcount1, Hrange1, Hcount2, Hrange2, Hcount2'.
  rewrite Hrange3, Hcount3.
  split; [reflexivity|]. split; [reflexivity|]. split.
  - repeat (apply Forall_app; split); auto.
    eapply Forall_impl; [|exact Hcalls3]. now intros [].
  - intros P Hnew Hold. apply Hforall2; [exact Hnew|].
    now apply Forall_dropMarked.
Qed.

Lemma effect_invariant (fuel : nat) (h : Heap) (nodes : list HTMLElement)
    (c : Component) :
  NoDup nodes -> NoDup (previousNodes c) ->
  List.length (views c) = List.length (previousNodes c) ->
  (List.length nodes <= fuel)%nat ->
  exists c' newCalls,
    effect layoutService props splitViewPropsRef splitViewViewRef isViewVisible
      fuel h nodes c = Returned c' /\
    previousNodes c' = nodes /\
    List.length (views c') = List.length nodes /\
    calls c' = calls c ++ newCalls /\
    allInRange (Z.of_nat (List.length (previousNodes c))) newCalls = true /\
    fold_left paneCountAfter newCalls (Z.of_nat (List.length (previousNodes c)))
    = Z.of_nat (List.length nodes).
Proof.
  intros Hnodes Hprevious Hviews Hfuel. unfold effect.
  rewrite previousNodes_after.
  destruct (structural_part fuel nodes c Hnodes Hprevious Hviews Hfuel)
    as (panes1 & views1 & calls1 & panes2 & views2 & calls2 & next2 & calls3
        & -> & -> & -> & Hlen2 & Hrange3 & Hcount3 & _).
  set (enter := filter (fun node => negb (includes node (previousNodes c))) nodes).
  set (update := filter (fun node => includes node (previousNodes c)) nodes).
  cbn [bind snd].
  destruct (resizeLoop h nodes views2 Hlen2 enter (calls c ++ calls3))
    as (calls4 & -> & Hcalls4).
  { intros node Hin. unfold enter in Hin. now apply filter_In in Hin. }
  cbn [bind].
  destruct (showLoop nodes (enter ++ update) ((calls c ++ calls3) ++ calls4))
    as (calls5 & -> & Hcalls5).
  { intros node Hin. apply in_app_or in Hin.
    destruct Hin as [Hin|Hin]; unfold enter, update in Hin;
      now apply filter_In in Hin. }
  destruct (updateLoop h nodes update views2
              (((calls c ++ calls3) ++ calls4) ++ calls5))
    as (views6 & calls6 & -> & Hlen6 & _ & Hcalls6).
  { intros node Hin. unfold update in Hin. now apply filter_In in Hin. }
  { exact Hlen2. }
  cbn [bind fst snd].
  eexists _, (calls3 ++ calls4 ++ calls5 ++ calls6).
  split; [reflexivity|]. cbn [previousNodes views calls].
  split; [reflexivity|]. split; [congruence|].
  split; [now rewrite <- !app_assoc|].
  assert (Hsteady : Forall (fun c => inRange (Z.of_nat (List.length nodes)) c = true
                                     /\ paneCountAfter (Z.of_nat (List.length nodes)) c
                                        = Z.of_nat (List.length nodes))
                      (calls4 ++ calls5 ++ calls6)).
  { repeat (apply Forall_app; split);
      [ eapply Forall_impl; [|exact Hcalls4]
      | eapply Forall_impl; [|exact Hcalls5]
      | eapply Forall_impl; [|exact Hcalls6] ];
      intros [] Hc; try contradiction; try discriminate;
      cbn [inRange paneCountAfter]; try (now split);
      (split; [|reflexivity]); now apply between. }
  apply steady_calls in Hsteady. destruct Hsteady as [Hrange4 Hcount4].
  set (steady := calls4 ++ calls5 ++ calls6) in *.
  rewrite allInRange_app, fold_left_app.
  now rewrite Hcount3, Hrange3, Hrange4, Hcount4.
Qed.


Lemma filter_none {A : Type} (f : A -> bool) (l : list A) :
  (forall x, In x l -> f x = false) -> filter f l = [].
Proof.
  induction l as [|x l IH]; intros H; [reflexivity|].
  cbn [filter]. rewrite (H x) by now left.
  apply IH. intros y Hy. apply H. now right.
Qed.

Lemma filter_all {A : Type} (f : A -> bool) (l : list A) :
  (forall x, In x l -> f x = true) -> filter f l = l.
Proof.
  induction l as [|x l IH]; intros H; [reflexivity|].
  cbn [filter]. rewrite (H x) by now left.
  f_equal. apply IH. intros y Hy. apply H. now right.
Qed.

Lemma nothing_exits (nodes previous : list HTMLElement) (index : nat) :
  (forall node, In node previous -> In node nodes) ->
  nth index (map (fun node => negb (includes node nodes)) previous) false = false.
Proof.
  intros Hsub.
  destruct (nth_in_or_default index
              (map (fun node => negb (includes node nodes)) previous) false)
    as [Hin|Hdefault]; [|exact Hdefault].
  apply in_map_iff in Hin. destruct Hin as (node & Heq & Hin).
  rewrite <- Heq. apply negb_false_iff, includes_In. now apply Hsub.
Qed.

Lemma movePanes_in_order (fuel : nat) (nodes : list HTMLElement)
    (calls : list Call) :
  movePanes splitViewViewRef fuel nodes (map Some nodes, calls)
  = Returned (map Some nodes, calls).
Proof.
  destruct fuel; cbn [movePanes fst];
    now rewrite (proj2 (isEqual_spec nodes nodes) eq_refl).
Qed.

Lemma same_children (fuel : nat) (h : Heap) (c : Component) :
  List.length (views c) = List.length (previousNodes c) ->
  exists c' newCalls,
    effect layoutService props splitViewPropsRef splitViewViewRef isViewVisible
      fuel h (previousNodes c) c = Returned c' /\
    previousNodes c' = previousNodes c /\
    nextElement c' = nextElement c /\
    map element (views c') = map element (views c) /\
    calls c' = calls c ++ newCalls /\
    Forall (fun call =>
              match call with
              | CallSetViewVisible index _ =>
                  0 <= index < Z.of_nat (List.length (previousNodes c))
              | CallLayout None => True
              | _ => False
              end) newCalls.
Proof.
  intros Hviews. unfold effect.
  rewrite previousNodes_after.
  rewrite (filter_none (fun node => negb (includes node (previousNodes c))))
    by (intros node Hin; now apply negb_false_iff, includes_In).
  rewrite (filter_all (fun node => includes node (previousNodes c)))
    by (intros node Hin; now apply includes_In).
  rewrite removeExited_none by (intros index; now apply nothing_exits).
  cbn [addEntered fold_left]. rewrite movePanes_in_order.
  cbn [bind snd forEach app].
  destruct (showLoop (previousNodes c) (previousNodes c) (calls c))
    as (calls5 & -> & Hcalls5); [auto|].
  destruct (updateLoop h (previousNodes c) (previousNodes c) (views c)
              (calls c ++ calls5))
    as (views6 & calls6 & -> & Hlen6 & Hel6 & Hcalls6); [auto | exact Hviews|].
  cbn [bind fst snd].
  eexists _, (calls5 ++ calls6). split; [reflexivity|].
  cbn [previousNodes views calls nextElement].
  repeat split; [exact Hel6 | now rewrite app_assoc|].
  apply Forall_app. split.
  - eapply Forall_impl; [|exact Hcalls5]. now intros [].
  - eapply Forall_impl; [|exact Hcalls6]. now intros ? ->.
Qed.

(** X8: a run of the effect for the children of the run before (as when
    only the props of a pane have changed) returns whatever the children
    are, repeated ones included, and tells the engine nothing about the
    panes themselves: no view is removed, added, moved or resized, and no
    element is created; what it may make are [setViewVisible] calls, at
    indices in range, and [layout()] calls; [views] keeps its length and the
    element at each index. *)
Theorem effect_for_the_same_children (fuel : nat) (h : Heap) (c : Component) :
  List.length (views c) = List.length (previousNodes c) ->
  exists c' newCalls,
    effect layoutService props splitViewPropsRef splitViewViewRef isViewVisible
      fuel h (previousNodes c) c = Returned c' /\
    previousNodes c' = previousNodes c /\
    nextElement c' = nextElement c /\
    map element (views c') = map element (views c) /\
    calls c' = calls c ++ newCalls /\
    Forall (fun call =>
              match call with
              | CallSetViewVisible index _ =>
                  0 <= index < Z.of_nat (List.length (previousNodes c))
              | CallLayout None => True
              | _ => False
              end) newCalls.
Proof. apply same_children. Qed.

(** X9: for children without repetition, from a state in which
    [previousNodes] has no repetition and [views] has one view for each of
    them, the effect returns (it throws no [TypeError], and the loop that
    moves the panes ends within as many rounds as there are children);
    afterwards [previousNodes] is the children, in their order, and [views]
    again holds one view for each. *)
Theorem effect_returns (fuel : nat) (h : Heap) (nodes : list HTMLElement)
    (c : Component) :
  NoDup nodes -> NoDup (previousNodes c) ->
  List.length (views c) = List.length (previousNodes c) ->
  (List.length nodes <= fuel)%nat ->
  exists c',
    effect layoutService props splitViewPropsRef splitViewViewRef isViewVisible
      fuel h nodes c = Returned c' /\
    previousNodes c' = nodes /\
    NoDup (previousNodes c') /\
    List.length (views c') = List.length (previousNodes c').
Proof.
  intros Hnodes Hprevious Hviews Hfuel.
  destruct (effect_invariant fuel h nodes c Hnodes Hprevious Hviews Hfuel)
    as (c' & newCalls & Heffect & Hnodes' & Hviews' & _).
  exists c'. rewrite Hnodes'. auto.
Qed.

(** X10: for children without repetition, from a state in which
    [previousNodes] has no repetition and [views] has one view for each of
    them, every index the effect passes to the engine is in range for the
    number of panes the engine holds at that moment, when it held one pane
    for each of [previousNodes] before: a removal, a move, a resize and a
    change of visibility name a pane that exists, an insertion names a place
    from 0 to the number of panes; and afterwards the engine holds one pane
    for each child. *)
Theorem effect_indices_in_range (fuel : nat) (h : Heap)
    (nodes : list HTMLElement) (c : Component) :
  NoDup nodes -> NoDup (previousNodes c) ->
  List.length (views c) = List.length (previousNodes c) ->
  (List.length nodes <= fuel)%nat ->
  exists c' newCalls,
    effect layoutService props splitViewPropsRef splitViewViewRef isViewVisible
      fuel h nodes c = Returned c' /\
    calls c' = calls c ++ newCalls /\
    allInRange (Z.of_nat (List.length (previousNodes c))) newCalls = true /\
    fold_left paneCountAfter newCalls (Z.of_nat (List.length (previousNodes c)))
    = Z.of_nat (List.length nodes).
Proof.
  intros Hnodes Hprevious Hviews Hfuel.
  destruct (effect_invariant fuel h nodes c Hnodes Hprevious Hviews Hfuel)
    as (c' & newCalls & Heffect & _ & _ & Hcalls & Hrange & Hcount).
  now exists c', newCalls.
Qed.

(** X11: when the children are those of the run before in another order,
    the effect asks the engine to move panes, but leaves [views] in the old
    order: the element of the view at each index is the one that was there,
    while [previousNodes] takes the new order.  The loops that follow read
    [views] at the index a child has among the children. *)
Theorem reorder_leaves_views_in_place (fuel : nat) (h : Heap)
    (nodes : list HTMLElement) (c : Component) :
  NoDup nodes -> Permutation (previousNodes c) nodes ->
  previousNodes c <> nodes ->
  List.length (views c) = List.length (previousNodes c) ->
  (List.length nodes <= fuel)%nat ->
  exists c' moves others,
    effect layoutService props splitViewPropsRef splitViewViewRef isViewVisible
      fuel h nodes c = Returned c' /\
    previousNodes c' = nodes /\
    map element (views c') = map element (views c) /\
    calls c' = calls c ++ moves ++ others /\
    moves <> [] /\
    Forall (fun call =>
              match call with CallMoveView _ _ _ => True | _ => False end)
           moves /\
    Forall (fun call => structural call = false) others.
Proof.
  intros Hnodes Hperm Hne Hviews Hfuel. unfold effect.
  rewrite previousNodes_after.
  assert (Hsame : forall node, In node nodes <-> In node (previousNodes c)).
  { intros node. split; apply Permutation_in; [now symmetry | exact Hperm]. }
  rewrite (filter_none (fun node => negb (includes node (previousNodes c))))
    by (intros node Hin; now apply negb_false_iff, includes_In, Hsame).
  rewrite (filter_all (fun node => includes node (previousNodes c)))
    by (intros node Hin; now apply includes_In, Hsame).
  rewrite removeExited_none
    by (intros index; apply nothing_exits; intros node; apply Hsame).
  cbn [addEntered fold_left].
  destruct (moveLoop nodes Hnodes fuel [] nodes (previousNodes c) (calls c)
              eq_refl Hperm Hfuel)
    as (calls3 & Hmove & Hcalls3 & Hsome).
  cbn [app] in Hmove. rewrite Hmove.
  cbn [bind snd forEach app].
  destruct (showLoop nodes nodes (calls c ++ calls3))
    as (calls5 & -> & Hcalls5); [auto|].
  destruct (updateLoop h nodes nodes (views c) ((calls c ++ calls3) ++ calls5))
    as (views6 & calls6 & -> & Hlen6 & Hel6 & Hcalls6);
    [auto | now rewrite Hviews, (Permutation_length Hperm)|].
  cbn [bind fst snd].
  eexists _, calls3, (calls5 ++ calls6). split; [reflexivity|].
  cbn [previousNodes views calls].
  split; [reflexivity|]. split; [exact Hel6|].
  split; [now rewrite <- !app_assoc|].
  split; [now apply Hsome|]. split.
  - eapply Forall_impl; [|exact Hcalls3]. now intros [].
  - apply Forall_app. split.
    + eapply Forall_impl; [|exact Hcalls5]. now intros [].
    + eapply Forall_impl; [|exact Hcalls6]. now intros ? ->.
Qed.


(** ** The first run *)

Lemma splice_push {A : Type} (l : list A) (index : Z) (x : A) :
  index = Z.of_nat (List.length l) -> splice index 0 [x] l = l ++ [x].
Proof.
  intros ->. rewrite <- (app_nil_r l) at 2. apply splice_insert.
Qed.

Lemma addLoop_first (nodes : list HTMLElement) :
  NoDup nodes ->
  forall (todo done : list HTMLElement) (views : list PaneView)
         (calls : list Call) (next : HTMLElement),
  nodes = done ++ todo ->
  List.length views = List.length done ->
  addEntered layoutService props splitViewPropsRef splitViewViewRef nodes todo
    (map Some done, views, calls, next)
  = (map Some nodes,
     views ++ freshViews layoutService props splitViewPropsRef todo next,
     calls ++ additions splitViewViewRef (Z.of_nat (List.length done)) todo
                (freshViews layoutService props splitViewPropsRef todo next),
     Nat.iter (List.length todo) Pos.succ next).
Proof.
  intros Hnodup todo.
  induction todo as [|node todo IH]; intros done views calls next Hnodes Hlen.
  - cbn. now rewrite Hnodes, !app_nil_r.
  - assert (Hnodes' : nodes = (done ++ [node]) ++ todo)
      by (now rewrite <- app_assoc).
    unfold addEntered. cbn [fold_left]. unfold enterStep at 2.
    assert (Hindex : findIndex (Pos.eqb node) nodes
                     = Z.of_nat (List.length done)).
    { rewrite Hnodes. apply findIndex_node.
      rewrite Hnodes in Hnodup. apply NoDup_remove_2 in Hnodup.
      intros H. apply Hnodup. apply in_or_app. now left. }
    rewrite Hindex.
    rewrite (splice_push (map Some done)) by (now rewrite length_map).
    rewrite (splice_push views) by (now rewrite Hlen).
    change (map Some done ++ [Some node]) with (map Some done ++ map Some [node]).
    rewrite <- map_app.
    etransitivity.
    { apply (IH (done ++ [node])); [exact Hnodes'|].
      rewrite !length_app. cbn [List.length]. lia. }
    cbn [freshViews additions List.length].
    rewrite <- !app_assoc, Nat.iter_succ_r. cbn [app].
    rewrite length_app. cbn [List.length].
    now replace (Z.of_nat (List.length done + 1))
      with (Z.of_nat (List.length done) + 1) by lia.
Qed.

(** X12: the first run of the effect, for children without repetition,
    ends whatever rounds the loop of the moves is given: it creates one view
    for each child, on a fresh element each, adds them to the engine one by
    one in the order of the children, the k-th at index k, and only then
    resizes and shows or hides panes, at indices in range; nothing is removed
    or moved. *)
Theorem first_run_adds_in_order (fuel : nat) (h : Heap)
    (nodes : list HTMLElement) (c : Component) :
  NoDup nodes -> previousNodes c = [] -> views c = [] ->
  let created :=
    freshViews layoutService props splitViewPropsRef nodes (nextElement c) in
  exists c' others,
    effect layoutService props splitViewPropsRef splitViewViewRef isViewVisible
      fuel h nodes c = Returned c' /\
    previousNodes c' = nodes /\
    views c' = created /\
    map element created
    = map (fun k => Nat.iter k Pos.succ (nextElement c))
          (seq 0 (List.length nodes)) /\
    calls c' = calls c ++ additions splitViewViewRef 0 nodes created ++ others /\
    Forall (fun call =>
              match call with
              | CallResizeView index _ | CallSetViewVisible index _ =>
                  0 <= index < Z.of_nat (List.length nodes)
              | _ => False
              end) others.
Proof.
  intros Hnodes Hprevious Hviews created. unfold effect.
  rewrite previousNodes_after, Hprevious, Hviews.
  rewrite (filter_all (fun node => negb (includes node []))) by reflexivity.
  rewrite (filter_none (fun node => includes node [])) by reflexivity.
  cbn [map removeExited List.length seq rev fold_left].
  pose proof (addLoop_first nodes Hnodes nodes [] [] (calls c) (nextElement c)
                eq_refl eq_refl) as Hadd.
  cbn [map app List.length Z.of_nat] in Hadd. rewrite Hadd. fold created.
  rewrite movePanes_in_order. cbn [bind snd].
  assert (Hcreated : forall l next,
            List.length (freshViews layoutService props splitViewPropsRef l next)
            = List.length l).
  { induction l as [|x l IH]; intros next; [reflexivity|].
    cbn [freshViews List.length]. now rewrite IH. }
  destruct (resizeLoop h nodes created (Hcreated nodes (nextElement c)) nodes
              (calls c ++ additions splitViewViewRef 0 nodes created))
    as (calls4 & -> & Hcalls4); [auto|].
  cbn [bind]. rewrite app_nil_r.
  destruct (showLoop nodes nodes
              ((calls c ++ additions splitViewViewRef 0 nodes created) ++ calls4))
    as (calls5 & -> & Hcalls5); [auto|].
  cbn [forEach bind fst snd].
  eexists _, (calls4 ++ calls5). split; [reflexivity|].
  cbn [previousNodes views calls].
  split; [reflexivity|]. split; [reflexivity|]. split; [|split].
  - unfold created. generalize (nextElement c) as next.
    clear. induction nodes as [|x l IH]; intros next; [reflexivity|].
    cbn [freshViews List.length seq map]. f_equal.
    rewrite IH, <- seq_shift, map_map. apply map_ext.
    intros k. now rewrite Nat.iter_succ_r.
  - now rewrite <- !app_assoc.
  - apply Forall_app. split.
    + eapply Forall_impl; [|exact Hcalls4]. now intros [].
    + eapply Forall_impl; [|exact Hcalls5]. now intros [].
Qed.

(** ** The loop that updates the views *)

Lemma item_found {A : Type} (l : list A) (index : Z) (x : A) :
  item l index = Some x ->
  exists l1 l2, l = l1 ++ x :: l2 /\ index = Z.of_nat (List.length l1).
Proof.
  unfold item. destruct (index <? 0) eqn:E; [discriminate|].
  apply Z.ltb_ge in E.
  intros H. apply nth_error_split in H. destruct H as (l1 & l2 & -> & H).
  exists l1, l2. split; [reflexivity | lia].
Qed.

Lemma setItem_middle {A : Type} (l1 l2 : list A) (old new : A) :
  setItem (l1 ++ old :: l2) (Z.of_nat (List.length l1)) new = l1 ++ new :: l2.
Proof.
  unfold setItem. rewrite Nat2Z.id.
  rewrite firstn_app, Nat.sub_diag, firstn_all. cbn [firstn].
  rewrite app_nil_r.
  replace (S (List.length l1)) with (List.length l1 + 1)%nat by lia.
  rewrite skipn_app, Nat.add_sub_swap, Nat.sub_diag by lia.
  rewrite skipn_all2 by lia. reflexivity.
Qed.

Lemma updateField_middle (declared : value) (current : PaneView -> value)
    (assignTo : value -> PaneView -> PaneView) (l1 l2 : list PaneView)
    (view : PaneView) :
  updateField declared current assignTo (l1 ++ view :: l2)
    (Z.of_nat (List.length l1))
  = Returned (l1 ++ assignField declared current assignTo view :: l2,
              assigns declared current view).
Proof.
  unfold updateField, assignField, assigns. rewrite item_middle.
  destruct (negb (strict_equal declared VUndefined)); [|reflexivity].
  cbn [andb].
  destruct (negb (strict_equal (current view) declared)); [|reflexivity].
  now rewrite setItem_middle.
Qed.

Lemma updateView_middle (h : Heap) (nodes : list HTMLElement)
    (l1 l2 : list PaneView) (view : PaneView) (calls : list Call)
    (node : HTMLElement) (svProps : PaneProps) :
  mapGet splitViewPropsRef node = Some svProps ->
  isPaneProps svProps = true ->
  findIndex (Pos.eqb node) nodes = Z.of_nat (List.length l1) ->
  updateView splitViewPropsRef h nodes (l1 ++ view :: l2, calls) node
  = Returned (l1 ++ afterUpdate h svProps view :: l2,
              if sizeChanged svProps view then calls ++ [CallLayout None]
              else calls).
Proof.
  intros Hprops Hpane Hindex. unfold updateView.
  rewrite Hprops, Hpane, Hindex, updateField_middle. cbn [bind fst snd].
  rewrite updateField_middle. cbn [bind fst snd].
  rewrite updateField_middle. cbn [bind fst snd].
  unfold sizeChanged.
  rewrite (proj1 (assignsMinimum_stable h _ _ VUndefined view)).
  rewrite (proj2 (assignsMaximum_stable h _ VUndefined _ _)).
  now rewrite (proj1 (assignsMaximum_stable h _ _ VUndefined view)).
Qed.



(** X13: when the loop that updates the views has returned for a child
    whose declared [minSize] and [maxSize] are each [undefined] or a number
    other than NaN, running it again for that child, with the same props,
    assigns nothing new and does not lay the engine out: [views] and the
    calls are as they were. *)
Theorem update_settles (h : Heap) (nodes : list HTMLElement)
    (views views' : list PaneView) (calls calls' : list Call)
    (node : HTMLElement) :
  (forall svProps, mapGet splitViewPropsRef node = Some svProps ->
                   settling (p_minSize svProps) /\ settling (p_maxSize svProps)) ->
  updateView splitViewPropsRef h nodes (views, calls) node
  = Returned (views', calls') ->
  forall again : list Call,
  updateView splitViewPropsRef h nodes (views', again) node
  = Returned (views', again).
Proof.
  intros Hsettling Hfirst again.
  destruct (mapGet splitViewPropsRef node) as [svProps|] eqn:Hprops.
  2:{ unfold updateView in *. rewrite Hprops in *. congruence. }
  destruct (isPaneProps svProps) eqn:Hpane.
  2:{ unfold updateView in *. rewrite Hprops, Hpane in *. congruence. }
  destruct (Hsettling svProps eq_refl) as [Hmin Hmax].
  destruct (item views (findIndex (Pos.eqb node) nodes)) as [view|] eqn:Hitem.
  - apply item_found in Hitem. destruct Hitem as (l1 & l2 & -> & Hindex).
    rewrite (updateView_middle h nodes l1 l2 view calls node svProps
               Hprops Hpane Hindex) in Hfirst.
    injection Hfirst as <- _.
    rewrite (updateView_middle h nodes l1 l2 (afterUpdate h svProps view) again
               node svProps Hprops Hpane Hindex).
    destruct (afterUpdate_settles h svProps view Hmin Hmax) as [-> ->].
    reflexivity.
  - unfold updateView, updateField in *. rewrite Hprops, Hpane in *.
    rewrite Hitem in Hfirst.
    destruct (negb (strict_equal (p_preferredSize svProps) VUndefined));
      [discriminate|].
    cbn [bind fst snd] in *. rewrite Hitem in Hfirst.
    destruct (negb (strict_equal (p_minSize svProps) VUndefined));
      [discriminate|].
    cbn [bind fst snd] in *. rewrite Hitem in Hfirst.
    destruct (negb (strict_equal (p_maxSize svProps) VUndefined));
      [discriminate|].
    cbn [bind fst snd orb] in *. congruence.
Qed.

(** X14: a declared [minSize] or [maxSize] that is NaN never compares
    equal to the bound of the view, so the loop assigns it and lays the
    engine out on every run, whatever the view holds: the view at the index
    of the child is replaced by the view after the assignments, whose bound
    is the declared NaN, the other views are left as they are, and
    [layout()] is the call made. *)
Theorem NaN_bound_lays_out_every_time (h : Heap) (nodes : list HTMLElement)
    (views : list PaneView) (calls : list Call) (node : HTMLElement)
    (svProps : PaneProps) (n : number) :
  mapGet splitViewPropsRef node = Some svProps ->
  p_minSize svProps = VNumber n \/ p_maxSize svProps = VNumber n ->
  PrimFloat.eqb n n = false ->
  In node nodes -> List.length views = List.length nodes ->
  exists before view after,
    views = before ++ view :: after /\
    findIndex (Pos.eqb node) nodes = Z.of_nat (List.length before) /\
    let view' := afterUpdate h svProps view in
    updateView splitViewPropsRef h nodes (views, calls) node
    = Returned (before ++ view' :: after, calls ++ [CallLayout None]) /\
    (p_minSize svProps = VNumber n -> minimumSize view' = n) /\
    (p_maxSize svProps = VNumber n -> maximumSize view' = n) /\
    element view' = element view.
Proof.
  intros Hprops Hbound Hnan Hin Hlen.
  assert (Hpane : isPaneProps svProps = true).
  { unfold isPaneProps.
    destruct Hbound as [-> | ->]; cbn [strict_equal negb orb];
      now rewrite ?orb_true_r. }
  pose proof (findIndex_node_found node nodes Hin) as Hindex.
  rewrite <- Hlen in Hindex.
  destruct (item_in_range views _ Hindex) as [view Hitem].
  apply item_found in Hitem. destruct Hitem as (l1 & l2 & -> & Hfound).
  exists l1, view, l2. split; [reflexivity|]. split; [exact Hfound|].
  intros view'.
  rewrite (updateView_middle h nodes l1 l2 view calls node svProps
             Hprops Hpane Hfound).
  assert (Hchanged : sizeChanged svProps view = true).
  { unfold sizeChanged, assigns.
    destruct Hbound as [-> | ->]; cbn [strict_equal negb andb];
      rewrite (eqb_NaN n _ Hnan); cbn [negb orb]; now rewrite ?orb_true_r. }
  rewrite Hchanged. split; [reflexivity|].
  unfold view', afterUpdate, assignField, assigns.
  split; [|split].
  - intros ->. cbn [strict_equal negb andb].
    rewrite (eqb_NaN n _ Hnan). cbn [negb].
    repeat match goal with
           | |- context [if ?c then _ else _] => destruct c
           end; reflexivity.
  - intros ->. cbn [strict_equal negb andb].
    rewrite (eqb_NaN n _ Hnan). cbn [negb]. reflexivity.
  - repeat match goal with
           | |- context [if ?c then _ else _] => destruct c
           end; reflexivity.
Qed.

(** ** The mount *)

Lemma descriptorViews_spec (sizes : list number) :
  forall (index : nat) (children : list HTMLElement) (next : HTMLElement),
  let described :=
    descriptorViews layoutService props splitViewPropsRef splitViewViewRef
      sizes index children next in
  map (fun d => snd (fst d)) described = sizes /\
  map (fun d => element (snd d)) described
  = map (fun k => Nat.iter k Pos.succ next) (seq 0 (List.length sizes)).
Proof.
  induction sizes as [|size sizes IH]; intros index children next;
    [now split|].
  cbn [descriptorViews map List.length seq fst snd].
  destruct (IH (S index) children (Pos.succ next)) as [-> ->].
  split; [reflexivity|]. f_equal.
  rewrite <- seq_shift, map_map. apply map_ext.
  intros k. now rewrite Nat.iter_succ_r.
Qed.

(** X15: with [defaultSizes], the mount hands the engine a descriptor only
    when as many panes have registered an element as there are sizes;
    otherwise the sizes are dropped and [previousNodes] and [views] stay
    empty.  The descriptor gives the k-th size to the k-th view, each view
    on an element of its own, and its [size] is their sum from the left;
    [previousNodes] becomes the children.  When there are as many children
    as sizes, the first run of the effect for these children then adds,
    removes, moves and resizes nothing. *)
Theorem mount_with_defaultSizes (fuel : nat) (h : Heap)
    (children : list HTMLElement) (next : HTMLElement) (sizes : list number) :
  a_defaultSizes props = Some sizes ->
  let m :=
    mount layoutService props splitViewPropsRef splitViewViewRef children next in
  (List.length splitViewViewRef <> List.length sizes ->
   initializeSizes m = false /\ mountedNodes m = [] /\ mountedViews m = [] /\
   descriptor m = None) /\
  (List.length splitViewViewRef = List.length sizes ->
   initializeSizes m = true /\ mountedNodes m = children /\
   (exists described,
      descriptor m = Some (fold_left PrimFloat.add sizes 0%float, described) /\
      map (fun d => snd (fst d)) described = sizes /\
      map snd described = mountedViews m) /\
   map element (mountedViews m)
   = map (fun k => Nat.iter k Pos.succ next) (seq 0 (List.length sizes)) /\
   (List.length children = List.length sizes ->
    exists c',
      effect layoutService props splitViewPropsRef splitViewViewRef
        isViewVisible fuel h children
        {| previousNodes := mountedNodes m; views := mountedViews m;
           calls := []; nextElement := afterMount m |} = Returned c' /\
      previousNodes c' = children /\
      nextElement c' = afterMount m /\
      Forall (fun call =>
                match call with
                | CallSetViewVisible _ _ | CallLayout None => True
                | _ => False
                end) (calls c'))).
Proof.
  intros Hsizes m. unfold m, mount. rewrite Hsizes. split.
  - intros Hne. apply Nat.eqb_neq in Hne. rewrite Hne. now cbn.
  - intros Heq. rewrite Heq, Nat.eqb_refl. cbn [negb].
    cbn [initializeSizes mountedNodes mountedViews descriptor afterMount].
    destruct (descriptorViews_spec sizes 0 children next) as [Hgiven Helements].
    split; [reflexivity|]. split; [reflexivity|].
    split; [eexists; repeat split; exact Hgiven|].
    split; [now rewrite map_map|].
    intros Hchildren.
    destruct (same_children fuel h
                {| previousNodes := children;
                   views := map snd (descriptorViews layoutService props
                                       splitViewPropsRef splitViewViewRef
                                       sizes 0 children next);
                   calls := [];
                   nextElement := Nat.iter (List.length sizes) Pos.succ next |})
      as (c' & newCalls & Heffect & Hnodes & Hnext & _ & Hcalls & Hshape).
    { cbn [views previousNodes]. rewrite length_map, Hchildren.
      rewrite <- Hgiven at 2. now rewrite length_map. }
    cbn [previousNodes views calls nextElement app] in *.
    exists c'. rewrite Heffect, Hcalls.
    repeat split; auto.
    eapply Forall_impl; [|exact Hshape]. now intros [].
Qed.

End Reconciliation.

(** ** The props of the panes *)

Lemma resizeLoop_none (h : Heap) (nodes : list HTMLElement)
    (views : list PaneView) :
  List.length views = List.length nodes ->
  (forall view, In view views -> preferredSize h view = None) ->
  forall (enter : list HTMLElement) (calls : list Call),
  (forall node, In node enter -> In node nodes) ->
  forEach (resizeEntered h nodes views) enter calls = Returned calls.
Proof.
  intros Hlen Hnone enter.
  induction enter as [|node enter IH]; intros calls Hin; [reflexivity|].
  cbn [forEach]. unfold resizeEntered at 1.
  pose proof (findIndex_node_found node nodes (Hin node (or_introl eq_refl)))
    as Hindex.
  destruct (item_in_range views (findIndex (Pos.eqb node) nodes)) as [view Hview];
    [now rewrite Hlen|].
  rewrite Hview.
  apply item_found in Hview. destruct Hview as (l1 & l2 & Hviews & _).
  rewrite (Hnone view) by (rewrite Hviews; apply in_elt).
  cbn [bind]. apply IH. intros n Hn. apply Hin. now right.
Qed.

Lemma showLoop_none (isViewVisible : list Call -> Z -> value)
    (nodes l : list HTMLElement) (calls : list Call) :
  fold_left (showOrHide [] isViewVisible nodes) l calls = calls.
Proof. induction l as [|node l IH]; [reflexivity | exact IH]. Qed.

Lemma updateLoop_none (h : Heap) (nodes l : list HTMLElement)
    (s : list PaneView * list Call) :
  forEach (updateView [] h nodes) l s = Returned s.
Proof.
  induction l as [|node l IH]; [reflexivity|].
  cbn [forEach]. destruct s as [views calls]. exact IH.
Qed.

(** X16: with no props registered for any child (the component holds no
    statement that fills [splitViewPropsRef]; the one there is commented
    out), what a pane declares reaches no view: every view the effect
    creates has no preferred size, the priority Normal, and the bounds of
    the component's own props or their defaults; and the effect makes no
    call other than [removeView], [addView] and [moveView]: no pane is
    resized to a preferred size, shown, hidden, or laid out again. *)
Theorem unregistered_props_reach_no_view
    (layoutService : LayoutServiceRef) (props : AllotmentProps)
    (splitViewViewRef : Map HTMLElement)
    (isViewVisible : list Call -> Z -> value)
    (fuel : nat) (h : Heap) (nodes : list HTMLElement) (c : Component) :
  let default view :=
    exists element, view = createPaneView layoutService props None element in
  NoDup nodes -> NoDup (previousNodes c) ->
  List.length (views c) = List.length (previousNodes c) ->
  (List.length nodes <= fuel)%nat ->
  Forall default (views c) ->
  exists c' newCalls,
    effect layoutService props [] splitViewViewRef isViewVisible fuel h nodes c
    = Returned c' /\
    calls c' = calls c ++ newCalls /\
    Forall (fun call => structural call = true) newCalls /\
    Forall default (views c') /\
    forall view, In view (views c') ->
      layoutStrategy view = NullLayout /\
      priority view = Some Normal /\
      minimumSize view = number_or 30%float (a_minSize props) /\
      maximumSize view = number_or POSITIVE_INFINITY (a_maxSize props).
Proof.
  intros default Hnodes Hprevious Hviews Hfuel Hdefault. unfold effect.
  destruct (structural_part layoutService props [] splitViewViewRef fuel nodes c
              Hnodes Hprevious Hviews Hfuel)
    as (panes1 & views1 & calls1 & panes2 & views2 & calls2 & next2 & calls3
        & -> & -> & -> & Hlen2 & _ & _ & Hstructural & Hforall).
  specialize (Hforall default (fun _ element => ex_intro _ element eq_refl)
                Hdefault).
  cbn [bind snd].
  assert (Hfields : forall view, In view views2 ->
            layoutStrategy view = NullLayout /\
            priority view = Some Normal /\
            minimumSize view = number_or 30%float (a_minSize props) /\
            maximumSize view = number_or POSITIVE_INFINITY (a_maxSize props)).
  { intros view Hin. rewrite Forall_forall in Hforall.
    destruct (Hforall view Hin) as [element ->]. now repeat split. }
  rewrite (resizeLoop_none h nodes views2 Hlen2).
  - cbn [bind]. rewrite showLoop_none, updateLoop_none. cbn [bind fst snd].
    eexists _, calls3. split; [reflexivity|]. cbn [views calls]. auto.
  - intros view Hin. unfold preferredSize.
    now rewrite (proj1 (Hfields view Hin)).
  - intros node Hin. now apply filter_In in Hin.
Qed.

(** ** A child that is repeated *)

Lemma splice_length_delete {A : Type} (index : Z) (l : list A) :
  l <> [] -> -1 <= index < Z.of_nat (List.length l) ->
  S (List.length (splice index 1 [] l)) = List.length l.
Proof.
  intros Hne Hindex. unfold splice.
  assert (Hlen : (0 < List.length l)%nat)
    by (destruct l; [contradiction | cbn; lia]).
  set (start := if index <? 0 then _ else _).
  assert (Hstart : 0 <= start < Z.of_nat (List.length l)).
  { unfold start. destruct (index <? 0) eqn:E.
    - apply Z.ltb_lt in E. lia.
    - apply Z.ltb_ge in E. lia. }
  rewrite Z.max_l by lia. rewrite Z.min_l by lia.
  cbn [app]. rewrite length_app, length_firstn, length_skipn. lia.
Qed.

Lemma firstMisplaced_index (panes : list (option HTMLElement))
    (nodes : list HTMLElement) :
  forall (i index j : Z) (node : HTMLElement),
  firstMisplaced nodes i panes = Some (node, index, j) ->
  index = findIndex (same node) panes.
Proof.
  induction nodes as [|n nodes IH]; intros i index j node H; [discriminate|].
  cbn [firstMisplaced] in H.
  destruct (findIndex (same n) panes =? i); [now apply IH in H|].
  congruence.
Qed.

Lemma moveStep_length (splitViewViewRef : Map HTMLElement)
    (nodes : list HTMLElement) (panes : list (option HTMLElement))
    (calls : list Call) :
  panes <> [] ->
  List.length (fst (moveStep splitViewViewRef nodes (panes, calls)))
  = List.length panes.
Proof.
  intros Hne. unfold moveStep.
  destruct (firstMisplaced nodes 0 panes) as [[[node index] i]|] eqn:Hmis;
    [|reflexivity].
  cbn [fst]. apply firstMisplaced_index in Hmis.
  rewrite splice_length_insert.
  apply splice_length_delete; [exact Hne|].
  rewrite Hmis. apply findIndex_bounds.
Qed.

Lemma isEqual_length (nodes : list HTMLElement) :
  forall panes, isEqual nodes panes = true ->
  List.length panes = List.length nodes.
Proof.
  induction nodes as [|n nodes IH]; intros [|p panes] H; try discriminate;
    [reflexivity|].
  cbn [isEqual] in H. apply andb_true_iff in H.
  cbn [List.length]. f_equal. now apply IH.
Qed.

Lemma movePanes_diverges (splitViewViewRef : Map HTMLElement)
    (nodes : list HTMLElement) (fuel : nat) :
  forall (panes : list (option HTMLElement)) (calls : list Call),
  panes <> [] -> List.length panes <> List.length nodes ->
  movePanes splitViewViewRef fuel nodes (panes, calls) = Diverges.
Proof.
  induction fuel as [|fuel IH]; intros panes calls Hne Hlen;
    cbn [movePanes fst];
    (destruct (isEqual nodes panes) eqn:Heq;
     [now apply isEqual_length in Heq|]); [reflexivity|].
  pose proof (moveStep_length splitViewViewRef nodes panes calls Hne) as Hstep.
  destruct (moveStep splitViewViewRef nodes (panes, calls)) as [panes' calls'].
  cbn [fst] in Hstep. apply IH.
  - intros ->. destruct panes; [contradiction | discriminate].
  - now rewrite Hstep.
Qed.

Lemma addEntered_panes (layoutService : LayoutServiceRef) (props : AllotmentProps)
    (splitViewPropsRef : Map PaneProps) (splitViewViewRef : Map HTMLElement)
    (nodes : list HTMLElement) (enter : list HTMLElement) :
  forall (panes : list (option HTMLElement)) (views : list PaneView)
         (calls : list Call) (next : HTMLElement),
  exists panes' views' calls' next',
    addEntered layoutService props splitViewPropsRef splitViewViewRef nodes
      enter (panes, views, calls, next) = (panes', views', calls', next') /\
    List.length panes' = (List.length enter + List.length panes)%nat.
Proof.
  induction enter as [|node enter IH]; intros panes views calls next.
  - now exists panes, views, calls, next.
  - unfold addEntered. cbn [fold_left]. unfold enterStep at 2.
    destruct (IH (splice (findIndex (Pos.eqb node) nodes) 0 [Some node] panes)
                (splice (findIndex (Pos.eqb node) nodes) 0
                   [createPaneView layoutService props
                      (mapGet splitViewPropsRef node) next] views)
                (calls ++ [CallAddView (mapGet splitViewViewRef node)
                             (createPaneView layoutService props
                                (mapGet splitViewPropsRef node) next)
                             (findIndex (Pos.eqb node) nodes)])
                (Pos.succ next))
      as (panes' & views' & calls' & next' & Hadd & Hlen).
    exists panes', views', calls', next'. split; [exact Hadd|].
    rewrite Hlen, splice_length_insert. cbn [List.length]. lia.
Qed.

Lemma repeated_child_counts (previous l1 l2 l3 : list HTMLElement)
    (x : HTMLElement) :
  NoDup previous -> In x previous ->
  let nodes := l1 ++ x :: l2 ++ x :: l3 in
  (0 < List.length (filter (fun node => includes node nodes) previous)
   < List.length (filter (fun node => includes node previous) nodes))%nat.
Proof.
  intros Hnodup Hx nodes.
  set (kept := filter (fun node => includes node nodes) previous).
  assert (Hkept : In x kept).
  { apply filter_In. split; [exact Hx|]. apply includes_In.
    apply in_or_app. right. now left. }
  split; [destruct kept; [contradiction | cbn; lia]|].
  set (once := l1 ++ x :: l2 ++ l3).
  assert (Hle : (List.length kept
                 <= List.length (filter (fun node => includes node previous) once))%nat).
  { apply NoDup_incl_length; [now apply NoDup_filter|].
    intros y Hy. apply filter_In in Hy. destruct Hy as [Hprev Hnodes].
    apply filter_In. split; [|now apply includes_In].
    apply includes_In in Hnodes. unfold nodes in Hnodes. unfold once.
    rewrite !in_app_iff in *. cbn [In] in *. rewrite !in_app_iff in *.
    cbn [In] in *. tauto. }
  assert (Hmore : List.length (filter (fun node => includes node previous) nodes)
                  = S (List.length
                         (filter (fun node => includes node previous) once))).
  { unfold nodes, once. rewrite !filter_app. cbn [filter].
    rewrite (proj2 (includes_In x previous) Hx).
    rewrite !length_app. cbn [List.length]. rewrite !filter_app, !length_app.
    cbn [filter]. rewrite (proj2 (includes_In x previous) Hx).
    cbn [List.length]. lia. }
  lia.
Qed.

(** X17: when a child that was among the children of the run before occurs
    twice among the children, the effect does not return: after the removals
    and the additions [panes] has fewer entries than there are children, a
    move keeps that number, so the loop that moves the panes never sees
    [panes] equal to the children, however many rounds it is given (the
    calls to the engine being taken to return). *)
Theorem repeated_child_never_settles
    (layoutService : LayoutServiceRef) (props : AllotmentProps)
    (splitViewPropsRef : Map PaneProps) (splitViewViewRef : Map HTMLElement)
    (isViewVisible : list Call -> Z -> value) (h : Heap)
    (l1 l2 l3 : list HTMLElement) (x : HTMLElement) (c : Component) :
  NoDup (previousNodes c) -> In x (previousNodes c) ->
  forall fuel : nat,
  effect layoutService props splitViewPropsRef splitViewViewRef isViewVisible
    fuel h (l1 ++ x :: l2 ++ x :: l3) c = Diverges.
Proof.
  intros Hnodup Hx fuel. unfold effect.
  set (nodes := l1 ++ x :: l2 ++ x :: l3).
  destruct (removeExited_spec (fun node => includes node nodes)
              (previousNodes c) (views c) (calls c))
    as (calls1 & -> & _).
  destruct (addEntered_panes layoutService props splitViewPropsRef
              splitViewViewRef nodes
              (filter (fun node => negb (includes node (previousNodes c))) nodes)
              (map Some (filter (fun node => includes node nodes)
                           (previousNodes c)))
              (dropMarked (map (fun node => negb (includes node nodes))
                             (previousNodes c)) (views c))
              (calls c ++ calls1) (nextElement c))
    as (panes2 & views2 & calls2 & next2 & -> & Hlen).
  rewrite length_map in Hlen.
  pose proof (repeated_child_counts (previousNodes c) l1 l2 l3 x Hnodup Hx)
    as Hcounts. cbv zeta in Hcounts. fold nodes in Hcounts.
  pose proof (Permutation_length
                (filter_partition (fun node => includes node (previousNodes c))
                   nodes)) as Hall.
  rewrite length_app in Hall.
  rewrite movePanes_diverges; [reflexivity| |lia].
  intros ->. cbn [List.length] in Hlen. lia.
Qed.

(** ** Instances *)

(** Three panes [1; 2; 3] with a default view each; the children become
    [2; 4; 1]. *)
Lemma effect_returns_witness :
  let props :=
    {| a_defaultSizes := None; a_proportionalLayout := VUndefined;
       a_vertical := VUndefined; a_onReset := false; a_maxSize := VUndefined;
       a_minSize := VUndefined; a_snap := VUndefined |} in
  let view := createPaneView 1%positive props None in
  let c :=
    {| previousNodes := [1; 2; 3]%positive;
       views := [view 11; view 12; view 13]%positive;
       calls := []; nextElement := 20%positive |} in
  exists c',
    effect 1%positive props [] [] (fun _ _ => VUndefined) 3
      (fun _ => {| _size := 800%float |}) [2; 4; 1]%positive c = Returned c' /\
    previousNodes c' = [2; 4; 1]%positive /\
    NoDup (previousNodes c') /\
    List.length (views c') = List.length (previousNodes c').
Proof.
  intros props view c.
  apply (effect_returns 1%positive props [] [] (fun _ _ => VUndefined) 3
           (fun _ => {| _size := 800%float |}) [2; 4; 1]%positive c).
  - repeat constructor; cbn; intuition discriminate.
  - repeat constructor; cbn; intuition discriminate.
  - reflexivity.
  - cbn. lia.
Defined.

Lemma effect_indices_in_range_witness :
  let props :=
    {| a_defaultSizes := None; a_proportionalLayout := VUndefined;
       a_vertical := VUndefined; a_onReset := false; a_maxSize := VUndefined;
       a_minSize := VUndefined; a_snap := VUndefined |} in
  let view := createPaneView 1%positive props None in
  let c :=
    {| previousNodes := [1; 2; 3]%positive;
       views := [view 11; view 12; view 13]%positive;
       calls := []; nextElement := 20%positive |} in
  exists c' newCalls,
    effect 1%positive props [] [] (fun _ _ => VUndefined) 3
      (fun _ => {| _size := 800%float |}) [2; 4; 1]%positive c = Returned c' /\
    calls c' = calls c ++ newCalls /\
    allInRange 3 newCalls = true /\
    fold_left paneCountAfter newCalls 3 = 3.
Proof.
  intros props view c.
  apply (effect_indices_in_range 1%positive props [] []
           (fun _ _ => VUndefined) 3 (fun _ => {| _size := 800%float |})
           [2; 4; 1]%positive c).
  - repeat constructor; cbn; intuition discriminate.
  - repeat constructor; cbn; intuition discriminate.
  - reflexivity.
  - cbn. lia.
Defined.

(** The children [1; 1], twice over, with the loop of the moves given no
    round at all. *)
Lemma effect_for_the_same_children_witness :
  let props :=
    {| a_defaultSizes := None; a_proportionalLayout := VUndefined;
       a_vertical := VUndefined; a_onReset := false; a_maxSize := VUndefined;
       a_minSize := VUndefined; a_snap := VUndefined |} in
  let view := createPaneView 1%positive props None in
  let c :=
    {| previousNodes := [1; 1]%positive; views := [view 11; view 12]%positive;
       calls := []; nextElement := 20%positive |} in
  exists c',
    effect 1%positive props [] [] (fun _ _ => VUndefined) 0
      (fun _ => {| _size := 800%float |}) [1; 1]%positive c = Returned c' /\
    nextElement c' = 20%positive.
Proof.
  intros props view c.
  destruct (effect_for_the_same_children 1%positive props [] []
              (fun _ _ => VUndefined) 0 (fun _ => {| _size := 800%float |}) c
              eq_refl)
    as (c' & newCalls & Heffect & _ & Hnext & _).
  exists c'. split; [exact Heffect | exact Hnext].
Defined.

(** The children [1; 2; 3] become [2; 1; 3]. *)
Lemma reorder_leaves_views_in_place_witness :
  let props :=
    {| a_defaultSizes := None; a_proportionalLayout := VUndefined;
       a_vertical := VUndefined; a_onReset := false; a_maxSize := VUndefined;
       a_minSize := VUndefined; a_snap := VUndefined |} in
  let view := createPaneView 1%positive props None in
  let c :=
    {| previousNodes := [1; 2; 3]%positive;
       views := [view 11; view 12; view 13]%positive;
       calls := []; nextElement := 20%positive |} in
  exists c',
    effect 1%positive props [] [] (fun _ _ => VUndefined) 3
      (fun _ => {| _size := 800%float |}) [2; 1; 3]%positive c = Returned c' /\
    previousNodes c' = [2; 1; 3]%positive /\
    map element (views c') = [11; 12; 13]%positive.
Proof.
  intros props view c.
  destruct (reorder_leaves_views_in_place 1%positive props [] []
              (fun _ _ => VUndefined) 3 (fun _ => {| _size := 800%float |})
              [2; 1; 3]%positive c)
    as (c' & moves & others & Heffect & Hnodes & Hviews & _).
  - repeat constructor; cbn; intuition discriminate.
  - apply perm_swap.
  - discriminate.
  - reflexivity.
  - cbn. lia.
  - exists c'. split; [exact Heffect|]. split; [exact Hnodes | exact Hviews].
Defined.

Lemma first_run_adds_in_order_witness :
  let props :=
    {| a_defaultSizes := None; a_proportionalLayout := VUndefined;
       a_vertical := VUndefined; a_onReset := false; a_maxSize := VUndefined;
       a_minSize := VUndefined; a_snap := VUndefined |} in
  let c :=
    {| previousNodes := []; views := []; calls := [];
       nextElement := 20%positive |} in
  exists c',
    effect 1%positive props [] [] (fun _ _ => VUndefined) 0
      (fun _ => {| _size := 800%float |}) [5; 6]%positive c = Returned c' /\
    map element (views c') = [20; 21]%positive.
Proof.
  intros props c.
  destruct (first_run_adds_in_order 1%positive props [] []
              (fun _ _ => VUndefined) 0 (fun _ => {| _size := 800%float |})
              [5; 6]%positive c)
    as (c' & others & Heffect & _ & Hviews & Helements & _).
  - repeat constructor; cbn; intuition discriminate.
  - reflexivity.
  - reflexivity.
  - exists c'. split; [exact Heffect|]. rewrite Hviews. exact Helements.
Defined.

(** The second child declares [minSize: 100]. *)
Lemma update_settles_witness :
  let props :=
    {| a_defaultSizes := None; a_proportionalLayout := VUndefined;
       a_vertical := VUndefined; a_onReset := false; a_maxSize := VUndefined;
       a_minSize := VUndefined; a_snap := VUndefined |} in
  let svProps :=
    {| p_preferredSize := VUndefined; p_priority := None;
       p_visible := VUndefined; p_maxSize := VUndefined;
       p_minSize := VNumber 100%float; p_snap := VUndefined |} in
  let view := createPaneView 1%positive props None in
  let h : Heap := fun _ => {| _size := 800%float |} in
  let updated := [view 11%positive; set_minimumSize (VNumber 100%float) (view 12%positive)] in
  updateView [(2%positive, svProps)] h [1; 2]%positive
    ([view 11%positive; view 12%positive], []) 2%positive
  = Returned (updated, [CallLayout None]) /\
  updateView [(2%positive, svProps)] h [1; 2]%positive (updated, []) 2%positive
  = Returned (updated, []).
Proof.
  intros props svProps view h updated.
  assert (Hfirst : updateView [(2%positive, svProps)] h [1; 2]%positive
                     ([view 11%positive; view 12%positive], []) 2%positive
                   = Returned (updated, [CallLayout None]))
    by reflexivity.
  split; [exact Hfirst|].
  apply (update_settles [(2%positive, svProps)] h [1; 2]%positive
           [view 11%positive; view 12%positive] updated [] [CallLayout None]
           2%positive); [|exact Hfirst].
  intros declared Hdeclared.
  assert (Heq : declared = svProps) by (cbn in Hdeclared; congruence).
  rewrite Heq. split; [right | left; reflexivity].
  exists 100%float. split; reflexivity.
Defined.

(** The second child declares [minSize: NaN]; its view already holds NaN as
    its minimum, and is assigned it again. *)
Lemma NaN_bound_lays_out_every_time_witness :
  let props :=
    {| a_defaultSizes := None; a_proportionalLayout := VUndefined;
       a_vertical := VUndefined; a_onReset := false; a_maxSize := VUndefined;
       a_minSize := VUndefined; a_snap := VUndefined |} in
  let svProps :=
    {| p_preferredSize := VUndefined; p_priority := None;
       p_visible := VUndefined; p_maxSize := VUndefined;
       p_minSize := VNumber NaN; p_snap := VUndefined |} in
  let view := createPaneView 1%positive props None in
  let h : Heap := fun _ => {| _size := 800%float |} in
  let views :=
    [view 11%positive; set_minimumSize (VNumber NaN) (view 12%positive)] in
  exists views',
    updateView [(2%positive, svProps)] h [1; 2]%positive (views, []) 2%positive
    = Returned (views', [CallLayout None]).
Proof.
  intros props svProps view h views.
  destruct (NaN_bound_lays_out_every_time [(2%positive, svProps)] h
              [1; 2]%positive views [] 2%positive svProps NaN)
    as (before & old & after & Hviews & _ & Hupdate & _).
  - reflexivity.
  - left. reflexivity.
  - reflexivity.
  - right. left. reflexivity.
  - reflexivity.
  - cbv zeta in Hupdate. eexists. exact Hupdate.
Defined.

(** Two sizes for two children that have registered an element each. *)
Lemma mount_with_defaultSizes_witness :
  let props :=
    {| a_defaultSizes := Some [100; 200]%float;
       a_proportionalLayout := VUndefined; a_vertical := VUndefined;
       a_onReset := false; a_maxSize := VUndefined; a_minSize := VUndefined;
       a_snap := VUndefined |} in
  let m :=
    mount 1%positive props [] [(1, 31); (2, 32)]%positive [1; 2]%positive
      20%positive in
  initializeSizes m = true /\ mountedNodes m = [1; 2]%positive /\
  map element (mountedViews m) = [20; 21]%positive.
Proof.
  intros props m.
  destruct (mount_with_defaultSizes 1%positive props []
              [(1, 31); (2, 32)]%positive (fun _ _ => VUndefined) 2
              (fun _ => {| _size := 800%float |}) [1; 2]%positive 20%positive
              [100; 200]%float eq_refl) as [_ Hdescribed].
  destruct (Hdescribed eq_refl) as (Hsizes & Hnodes & _ & Helements & _).
  split; [exact Hsizes|]. split; [exact Hnodes | exact Helements].
Defined.

Lemma unregistered_props_reach_no_view_witness :
  let props :=
    {| a_defaultSizes := None; a_proportionalLayout := VUndefined;
       a_vertical := VUndefined; a_onReset := false; a_maxSize := VUndefined;
       a_minSize := VNumber 50%float; a_snap := VUndefined |} in
  let view := createPaneView 1%positive props None in
  let c :=
    {| previousNodes := [1; 2; 3]%positive;
       views := [view 11; view 12; view 13]%positive;
       calls := []; nextElement := 20%positive |} in
  exists c',
    effect 1%positive props [] [] (fun _ _ => VUndefined) 3
      (fun _ => {| _size := 800%float |}) [2; 4; 1]%positive c = Returned c' /\
    Forall (fun call => structural call = true) (calls c') /\
    forall view, In view (views c') ->
      layoutStrategy view = NullLayout /\ minimumSize view = 50%float.
Proof.
  intros props view c.
  destruct (unregistered_props_reach_no_view 1%positive props []
              (fun _ _ => VUndefined) 3 (fun _ => {| _size := 800%float |})
              [2; 4; 1]%positive c)
    as (c' & newCalls & Heffect & Hcalls & Hstructural & _ & Hfields).
  - repeat constructor; cbn; intuition discriminate.
  - repeat constructor; cbn; intuition discriminate.
  - reflexivity.
  - cbn. lia.
  - repeat constructor; eexists; reflexivity.
  - exists c'. split; [exact Heffect|]. split.
    + rewrite Hcalls. exact Hstructural.
    + intros v Hin. destruct (Hfields v Hin) as (Hstrategy & _ & Hmin & _).
      split; [exact Hstrategy | exact Hmin].
Defined.

(** The child [1] of the run before, given twice. *)
Lemma repeated_child_never_settles_witness :
  let props :=
    {| a_defaultSizes := None; a_proportionalLayout := VUndefined;
       a_vertical := VUndefined; a_onReset := false; a_maxSize := VUndefined;
       a_minSize := VUndefined; a_snap := VUndefined |} in
  let c :=
    {| previousNodes := [1]%positive;
       views := [createPaneView 1%positive props None 11%positive];
       calls := []; nextElement := 20%positive |} in
  effect 1%positive props [] [] (fun _ _ => VUndefined) 1000
    (fun _ => {| _size := 800%float |}) [1; 1]%positive c
  = Diverges.
Proof.
  intros props c.
  apply (repeated_child_never_settles 1%positive props [] []
           (fun _ _ => VUndefined) (fun _ => {| _size := 800%float |})
           [] [] [] 1%positive c).
  - repeat constructor; cbn; intuition discriminate.
  - left. reflexivity.
Defined.

End AllotmentFacts.
